(** * winsynth: the audio engine (noiseMaker.h) and the note registry
      (AudioManager.cpp), embedded in Rocq.

    Conventions of the embedding.
    - A C++ [double] is a real number of [R]: the arithmetic of the source
      is read as exact arithmetic, rounding is outside the model (the
      specification itself states its numeric properties "within
      floating-point tolerance").
    - [unsigned int] is a [Z] with the wrap-around modulo 2^32 written out;
      the sample type [T] is the [int] of [NoiseMaker<int>], a [Z] in
      two's complement on 32 bits.
    - [std::unordered_map<WPARAM, double>] is a [gmap Z R].
    - Threads are interleaved by an explicit scheduler: a step function
      that takes the event to run next and returns [None] when the thread
      it names cannot move. *)

From Stdlib Require Import ZArith Reals Lra Lia List.
From stdpp Require Import gmap list fin_maps strings.

(* ------------------------------------------------------------------ *)
(** ** <cmath> on the model of [double] *)

Module Double.
Local Open Scope R_scope.

(** Conversion of a floating value to an integer drops the fraction
    (rounds toward zero). *)
Definition trunc (x : R) : Z :=
  if Rle_dec 0 x then Int_part x else (- Int_part (- x))%Z.

(** [fmod(x, y)]: [x - n*y] with [n] the quotient [x/y] rounded toward
    zero; the result carries the sign of [x]. *)
Definition fmod (x y : R) : R := x - IZR (trunc (x / y)) * y.

Definition fmin (x y : R) : R := if Rle_dec x y then x else y.
Definition fmax (x y : R) : R := if Rle_dec x y then y else x.

End Double.

(* ------------------------------------------------------------------ *)
(** ** noiseMaker.h, constants *)

(** [constexpr double PI = 3.14159265358979323846;] *)
Definition PI : R := 3.14159265358979323846%R.

(* ------------------------------------------------------------------ *)
(** ** AudioManager.cpp *)

(** [constexpr double TWO_PI = 2.0 * PI;] *)
Definition TWO_PI : R := (2.0 * PI)%R.

Module NoteFrequencies.
Local Open Scope R_scope.
Definition C4 : R := 261.626.
Definition D4 : R := 293.665.
Definition E4 : R := 329.628.
Definition F4 : R := 349.228.
Definition G4 : R := 392.000.
Definition A4 : R := 440.000.
Definition B4 : R := 493.883.
Definition C5 : R := 523.25.
Definition D5 : R := 587.33.
Definition E5 : R := 659.25.
Definition F5 : R := 698.46.
Definition G5 : R := 783.99.
Definition A5 : R := 880.00.
Definition B5 : R := 987.77.
Definition C6 : R := 1046.50.
Definition D6 : R := 1174.66.
Definition E6 : R := 1318.51.
End NoteFrequencies.

Module VirtualKeys.
Local Open Scope Z_scope.
Definition Q : BinNums.Z := 0x51.
Definition W : BinNums.Z := 0x57.
Definition E : BinNums.Z := 0x45.
Definition R : BinNums.Z := 0x52.
Definition T : BinNums.Z := 0x54.
Definition Y : BinNums.Z := 0x59.
Definition U : BinNums.Z := 0x55.
Definition I : BinNums.Z := 0x49.
Definition O : BinNums.Z := 0x4F.
Definition P : BinNums.Z := 0x50.
Definition Z : BinNums.Z := 0x5A.
Definition X : BinNums.Z := 0x58.
Definition C : BinNums.Z := 0x43.
Definition V : BinNums.Z := 0x56.
Definition B : BinNums.Z := 0x42.
Definition N : BinNums.Z := 0x4E.
Definition M : BinNums.Z := 0x4D.
End VirtualKeys.

Inductive WaveType : Set := Sine | Square.

(** The data members of [AudioManager] that the audio path reads and the
    key handlers write.  [m_notesMutex] is state of the scheduler model
    further down. *)
Record AudioManager : Type := mkAudioManager {
  m_activeNotes : gmap Z R;
  m_currentWaveType : WaveType
}.

Definition set_activeNotes (m : gmap Z R) (am : AudioManager) : AudioManager :=
  {| m_activeNotes := m; m_currentWaveType := m_currentWaveType am |}.

(** The if / else-if chain of [MapNoteFrequency]: the frequency assigned
    to [noteFreq], or [None] on the final [else return;]. *)
Definition noteFreq_of (wParam : Z) : option R :=
  if Z.eqb wParam VirtualKeys.Q then Some NoteFrequencies.C5
  else if Z.eqb wParam VirtualKeys.W then Some NoteFrequencies.D5
  else if Z.eqb wParam VirtualKeys.E then Some NoteFrequencies.E5
  else if Z.eqb wParam VirtualKeys.R then Some NoteFrequencies.F5
  else if Z.eqb wParam VirtualKeys.T then Some NoteFrequencies.G5
  else if Z.eqb wParam VirtualKeys.Y then Some NoteFrequencies.A5
  else if Z.eqb wParam VirtualKeys.U then Some NoteFrequencies.B5
  else if Z.eqb wParam VirtualKeys.I then Some NoteFrequencies.C6
  else if Z.eqb wParam VirtualKeys.O then Some NoteFrequencies.D6
  else if Z.eqb wParam VirtualKeys.P then Some NoteFrequencies.E6
  else if Z.eqb wParam VirtualKeys.Z then Some NoteFrequencies.C4
  else if Z.eqb wParam VirtualKeys.X then Some NoteFrequencies.D4
  else if Z.eqb wParam VirtualKeys.C then Some NoteFrequencies.E4
  else if Z.eqb wParam VirtualKeys.V then Some NoteFrequencies.F4
  else if Z.eqb wParam VirtualKeys.B then Some NoteFrequencies.G4
  else if Z.eqb wParam VirtualKeys.N then Some NoteFrequencies.A4
  else if Z.eqb wParam VirtualKeys.M then Some NoteFrequencies.B4
  else None.

(** [m_activeNotes[wParam] = noteFreq;] unless the key is unknown. *)
Definition MapNoteFrequency (wParam : Z) (am : AudioManager) : AudioManager :=
  match noteFreq_of wParam with
  | Some noteFreq => set_activeNotes (<[wParam := noteFreq]> (m_activeNotes am)) am
  | None => am
  end.

Definition HandleKeyDown (wParam : Z) (am : AudioManager) : AudioManager :=
  match m_activeNotes am !! wParam with
  | None => MapNoteFrequency wParam am
  | Some _ => am
  end.

Definition HandleKeyUp (wParam : Z) (am : AudioManager) : AudioManager :=
  set_activeNotes (delete wParam (m_activeNotes am)) am.

Definition SetWaveType (type : WaveType) (am : AudioManager) : AudioManager :=
  {| m_activeNotes := m_activeNotes am; m_currentWaveType := type |}.

Definition SineSoundMaker (freq dTime : R) : R :=
  sin (freq * TWO_PI * dTime).

Definition SquareSoundMaker (freq dTime : R) : R :=
  let phase := Double.fmod (freq * dTime) 1.0 in
  if Rlt_dec phase 0.5 then 1.0%R else (- 1.0)%R.

(** The oscillator that [StaticNoiseCallback] selects for a wave type. *)
Definition oscillator (type : WaveType) : R -> R -> R :=
  match type with
  | Sine => SineSoundMaker
  | Square => SquareSoundMaker
  end.

(** The range-for over [m_activeNotes]: [dOutput += maker(key.second, dTime)]
    for each entry in the iteration order of the map, from [dOutput = 0.0]. *)
Definition accumulate (maker : R -> R -> R) (dTime : R)
    (entries : list (Z * R)) (dOutput : R) : R :=
  foldl (fun acc key => (acc + maker key.2 dTime)%R) dOutput entries.

Definition MakeSineNoise (am : AudioManager) (dTime : R) : R :=
  (accumulate SineSoundMaker dTime (map_to_list (m_activeNotes am)) 0.0 * 0.5)%R.

Definition MakeSquareNoise (am : AudioManager) (dTime : R) : R :=
  (accumulate SquareSoundMaker dTime (map_to_list (m_activeNotes am)) 0.0 * 0.5)%R.

(** [s_instance] is the static pointer: [None] is [nullptr]. *)
Definition StaticNoiseCallback (s_instance : option AudioManager) (dTime : R) : R :=
  match s_instance with
  | Some inst =>
      match m_currentWaveType inst with
      | Sine => MakeSineNoise inst dTime
      | Square => MakeSquareNoise inst dTime
      end
  | None => 0.0%R
  end.

(* ------------------------------------------------------------------ *)
(** ** noiseMaker.h: [template <class T> class NoiseMaker], at [T = int] *)

Module NoiseMaker.

(** [unsigned int]: 32 bits, arithmetic modulo 2^32. *)
Definition u32 (z : Z) : Z := z mod 2 ^ 32.

(** [T = int]: [sizeof(T) = 4], two's complement. *)
Definition sizeof_T : Z := 4.
Definition T_MIN : Z := - 2 ^ (sizeof_T * 8 - 1).
Definition T_MAX : Z := 2 ^ (sizeof_T * 8 - 1) - 1.
Definition wrap_T (z : Z) : Z := (z - T_MIN) mod 2 ^ (sizeof_T * 8) + T_MIN.

(** [(T)x] for a [double x]: the fraction is dropped; a value that does
    not fit is undefined in C++ and comes out of the x86 conversion as
    the "integer indefinite" 0x80000000. *)
Definition to_T (x : R) : Z :=
  let z := Double.trunc x in
  if (T_MIN <=? z)%Z && (z <=? T_MAX)%Z then z else T_MIN.

(** [T nMaxSample = (T)pow(2, (sizeof(T) * 8) - 1) - 1;] *)
Definition nMaxSample : Z :=
  wrap_T (to_T (powerRZ 2 (sizeof_T * 8 - 1)) - 1).

(** [double dMaxSample = (double)nMaxSample;] *)
Definition dMaxSample : R := IZR nMaxSample.

Definition clip (dSample dMax : R) : R :=
  if Rge_dec dSample 0.0 then Double.fmin dSample dMax
  else Double.fmax dSample (- dMax).

(** [virtual double UserProcess(double dTime) { return 0.0; }] *)
Definition UserProcess (dTime : R) : R := 0.0%R.

Section Engine.

(** The file-scope state a synthesis callback reads besides its argument
    (for [AudioManager::StaticNoiseCallback]: [s_instance] and the object
    behind it).  A pointer to a function from [double] to [double] is a
    function of that state and of the time passed to it. *)
Context {G : Type}.

Record NoiseMaker : Type := mkNoiseMaker {
  m_userFunction : option (G -> R -> R);
  m_nSampleRate : Z;
  m_nChannels : Z;
  m_nBlockCount : Z;
  m_nBlockSamples : Z;
  m_nBlockCurrent : Z;
  m_pBlockMemory : list Z;
  m_bReady : bool;
  m_nBlockFree : Z;
  m_dGlobalTime : R
}.

Definition with_userFunction f (nm : NoiseMaker) : NoiseMaker :=
  mkNoiseMaker f (m_nSampleRate nm) (m_nChannels nm) (m_nBlockCount nm)
    (m_nBlockSamples nm) (m_nBlockCurrent nm) (m_pBlockMemory nm)
    (m_bReady nm) (m_nBlockFree nm) (m_dGlobalTime nm).
Definition with_BlockCurrent c (nm : NoiseMaker) : NoiseMaker :=
  mkNoiseMaker (m_userFunction nm) (m_nSampleRate nm) (m_nChannels nm)
    (m_nBlockCount nm) (m_nBlockSamples nm) c (m_pBlockMemory nm)
    (m_bReady nm) (m_nBlockFree nm) (m_dGlobalTime nm).
Definition with_BlockMemory mem (nm : NoiseMaker) : NoiseMaker :=
  mkNoiseMaker (m_userFunction nm) (m_nSampleRate nm) (m_nChannels nm)
    (m_nBlockCount nm) (m_nBlockSamples nm) (m_nBlockCurrent nm) mem
    (m_bReady nm) (m_nBlockFree nm) (m_dGlobalTime nm).
Definition with_Ready b (nm : NoiseMaker) : NoiseMaker :=
  mkNoiseMaker (m_userFunction nm) (m_nSampleRate nm) (m_nChannels nm)
    (m_nBlockCount nm) (m_nBlockSamples nm) (m_nBlockCurrent nm)
    (m_pBlockMemory nm) b (m_nBlockFree nm) (m_dGlobalTime nm).
Definition with_BlockFree n (nm : NoiseMaker) : NoiseMaker :=
  mkNoiseMaker (m_userFunction nm) (m_nSampleRate nm) (m_nChannels nm)
    (m_nBlockCount nm) (m_nBlockSamples nm) (m_nBlockCurrent nm)
    (m_pBlockMemory nm) (m_bReady nm) n (m_dGlobalTime nm).
Definition with_GlobalTime t (nm : NoiseMaker) : NoiseMaker :=
  mkNoiseMaker (m_userFunction nm) (m_nSampleRate nm) (m_nChannels nm)
    (m_nBlockCount nm) (m_nBlockSamples nm) (m_nBlockCurrent nm)
    (m_pBlockMemory nm) (m_bReady nm) (m_nBlockFree nm) t.

Definition SetUserFunction (func : G -> R -> R) (nm : NoiseMaker) : NoiseMaker :=
  with_userFunction (Some func) nm.


(** [double dTimeStep = 1.0 / (double)m_nSampleRate;] *)
Definition dTimeStep (nm : NoiseMaker) : R := (1.0 / IZR (m_nSampleRate nm))%R.

(** The value computed for one sample at the current clock: the branch on
    [m_userFunction == nullptr], the clip, the scaling and the cast. *)
Definition nNewSample (g : G) (nm : NoiseMaker) : Z :=
  match m_userFunction nm with
  | None => to_T (clip (UserProcess (m_dGlobalTime nm)) 1.0 * dMaxSample)
  | Some f => to_T (clip (f g (m_dGlobalTime nm)) 1.0 * dMaxSample)
  end.

(** [int nCurrentBlock = m_nBlockCurrent * m_nBlockSamples;] the product is
    taken on [unsigned int] and stored in an [int]. *)
Definition nCurrentBlock (nm : NoiseMaker) : Z :=
  wrap_T (u32 (m_nBlockCurrent nm * m_nBlockSamples nm)).

(** One turn of the [for] loop at position [n]; [g] is the file-scope
    state the callback finds when it is called for this sample.  The index
    [nCurrentBlock + n] is computed on [unsigned int]; a store outside
    [m_pBlockMemory] is undefined behaviour, [None] here. *)
Definition sample_step (g : G) (n : nat) (nm : NoiseMaker) : option NoiseMaker :=
  let i := Z.to_nat (u32 (nCurrentBlock nm + Z.of_nat n)) in
  if decide (i < length (m_pBlockMemory nm))%nat then
    Some (with_GlobalTime (m_dGlobalTime nm + dTimeStep nm)%R
            (with_BlockMemory (<[i := nNewSample g nm]> (m_pBlockMemory nm)) nm))
  else None.

(** [for (unsigned int n = 0; n < m_nBlockSamples; n++)], run from [n] for
    [k] more turns. *)
Fixpoint fill_from (g : nat -> G) (n k : nat) (nm : NoiseMaker) : option NoiseMaker :=
  match k with
  | O => Some nm
  | S k' =>
      match sample_step (g n) n nm with
      | Some nm' => fill_from g (S n) k' nm'
      | None => None
      end
  end.

Definition fill_block (g : nat -> G) (nm : NoiseMaker) : option NoiseMaker :=
  fill_from g 0 (Z.to_nat (m_nBlockSamples nm)) nm.

(** The object as the thread sees it [j] samples into a block: the clock
    has advanced [j] times. *)
Definition at_sample (j : nat) (nm : NoiseMaker) : NoiseMaker :=
  with_GlobalTime (m_dGlobalTime nm + INR j * dTimeStep nm)%R nm.

(** [m_nBlockCurrent++; m_nBlockCurrent %= m_nBlockCount;] a remainder by
    zero is undefined behaviour, [None] here. *)
Definition rotate (nm : NoiseMaker) : option NoiseMaker :=
  if (m_nBlockCount nm =? 0)%Z then None
  else Some (with_BlockCurrent (u32 (m_nBlockCurrent nm + 1) mod m_nBlockCount nm) nm).

(** The body of [while (m_bReady)] after the wait: take a block
    ([m_nBlockFree--]), fill it, hand it to the device, rotate. *)
Definition loop_body (g : nat -> G) (nm : NoiseMaker) : option NoiseMaker :=
  match fill_block g (with_BlockFree (u32 (m_nBlockFree nm - 1)) nm) with
  | Some nm' => rotate nm'
  | None => None
  end.

(** *** The producer thread, the device and the callers, interleaved

    One [System] is the engine object together with where its thread
    stands, the device queue, and two histories kept for the statements
    (they are not read by any step). *)

Inductive thread_pc : Set :=
| Start     (* MainThread entered, its first two lines not yet run *)
| AtWhile   (* about to test m_bReady *)
| Checked   (* has read m_nBlockFree == 0, about to lock and wait *)
| InWait    (* inside m_cvBlockNotZero.wait(lm) *)
| Woken     (* wait has returned, about to run m_nBlockFree-- *)
| Exited    (* MainThread has returned, or no thread was started *).

Record System : Type := mkSystem {
  nm : NoiseMaker;
  pc : thread_pc;
  hwDevice : bool;       (* waveOutOpen was called and returned S_OK *)
  start_notify : bool;   (* the notify_one of Create is still to come *)
  in_flight : list Z;    (* blocks given to waveOutWrite and not yet
                            reported WOM_DONE, oldest first *)
  generated : list Z;    (* history: the index of every block filled *)
  completed : list Z     (* history: the index of every block reported *)
}.

Definition with_nm x (s : System) : System :=
  mkSystem x (pc s) (hwDevice s) (start_notify s) (in_flight s) (generated s) (completed s).
Definition with_pc x (s : System) : System :=
  mkSystem (nm s) x (hwDevice s) (start_notify s) (in_flight s) (generated s) (completed s).
Definition with_start_notify x (s : System) : System :=
  mkSystem (nm s) (pc s) (hwDevice s) x (in_flight s) (generated s) (completed s).
Definition with_in_flight x (s : System) : System :=
  mkSystem (nm s) (pc s) (hwDevice s) (start_notify s) x (generated s) (completed s).
Definition with_generated x (s : System) : System :=
  mkSystem (nm s) (pc s) (hwDevice s) (start_notify s) (in_flight s) x (completed s).
Definition with_completed x (s : System) : System :=
  mkSystem (nm s) (pc s) (hwDevice s) (start_notify s) (in_flight s) (generated s) x.

(** What [Create] finds when it looks the device up and opens it. *)
Inductive device_result : Set :=
| NotListed     (* d == devices.end(): waveOutOpen is not called *)
| OpenFailed    (* waveOutOpen(...) != S_OK: return Destroy() *)
| Opened.

Definition Create (dev : device_result)
    (nSampleRate nChannels nBlocks nBlockSamples : Z) : System :=
  let nm0 := mkNoiseMaker None nSampleRate nChannels nBlocks nBlockSamples 0
               [] false nBlocks 0.0%R in
  match dev with
  | OpenFailed => mkSystem nm0 Exited false false [] [] []
  | _ =>
      let mem := replicate (Z.to_nat (u32 (nBlocks * nBlockSamples))) 0%Z in
      mkSystem (with_Ready true (with_BlockMemory mem nm0)) Start
        (match dev with Opened => true | _ => false end) true [] [] []
  end.

(** [m_cvBlockNotZero.notify_one()]: releases the thread if it is inside
    [wait], and is lost otherwise. *)
Definition notify_one (s : System) : System :=
  match pc s with
  | InWait => with_pc Woken s
  | _ => s
  end.

Definition WOM_DONE : Z := 0x3BD.

Definition waveOutProc (uMsg : Z) (s : System) : System :=
  if negb (uMsg =? WOM_DONE)%Z then s
  else notify_one (with_nm (with_BlockFree (u32 (m_nBlockFree (nm s) + 1)) (nm s)) s).

(** [waveOutWrite]: the device takes the block if the handle is valid. *)
Definition waveOutWrite (b : Z) (s : System) : System :=
  if hwDevice s then with_in_flight (in_flight s ++ [b]) s else s.

(** The thread runs the loop body on the block [m_nBlockCurrent] and is
    back at the [while]. *)
Definition produce (g : nat -> G) (s : System) : option System :=
  let b := m_nBlockCurrent (nm s) in
  match loop_body g (nm s) with
  | Some nm' =>
      Some (with_pc AtWhile
              (waveOutWrite b (with_generated (generated s ++ [b]) (with_nm nm' s))))
  | None => None
  end.

(** [MainThread], from one scheduling point to the next. [None]: the
    thread cannot move (it is blocked in [wait], or has returned), or the
    move is undefined behaviour. *)
Definition MainThread (g : nat -> G) (s : System) : option System :=
  match pc s with
  | Start => Some (with_pc AtWhile (with_nm (with_GlobalTime 0.0%R (nm s)) s))
  | AtWhile =>
      if m_bReady (nm s) then
        if (m_nBlockFree (nm s) =? 0)%Z then Some (with_pc Checked s)
        else produce g s
      else Some (with_pc Exited s)
  | Checked => Some (with_pc InWait s)
  | InWait => None
  | Woken => produce g s
  | Exited => None
  end.

(** [Stop]: [m_bReady = false; m_thread.join();] the assignment is the
    event, the [join] returns once the thread has [Exited]. *)
Definition Stop (s : System) : System := with_nm (with_Ready false (nm s)) s.

Inductive event : Type :=
| EvThread (g : nat -> G)    (* the producer thread moves; [g n] is the
                                file-scope state at its n-th sample *)
| EvCallback (uMsg : Z)      (* the device calls waveOutProc *)
| EvCreateNotify             (* Create reaches its notify_one *)
| EvSpuriousWake             (* wait returns without a notify *)
| EvStop
| EvSetUserFunction (func : G -> R -> R).

(** The device reports [WOM_DONE] only for a block it holds, the oldest
    first. *)
Definition step (e : event) (s : System) : option System :=
  match e with
  | EvThread g => MainThread g s
  | EvCallback uMsg =>
      if (uMsg =? WOM_DONE)%Z then
        match in_flight s with
        | [] => None
        | b :: q =>
            Some (waveOutProc uMsg
                    (with_completed (completed s ++ [b]) (with_in_flight q s)))
        end
      else Some (waveOutProc uMsg s)
  | EvCreateNotify =>
      if start_notify s then Some (notify_one (with_start_notify false s))
      else None
  | EvSpuriousWake =>
      match pc s with
      | InWait => Some (with_pc Woken s)
      | _ => None
      end
  | EvStop => Some (Stop s)
  | EvSetUserFunction func => Some (with_nm (SetUserFunction func (nm s)) s)
  end.

Fixpoint run (evs : list event) (s : System) : option System :=
  match evs with
  | [] => Some s
  | e :: evs' =>
      match step e s with
      | Some s' => run evs' s'
      | None => None
      end
  end.

Definition is_spurious (e : event) : bool :=
  match e with
  | EvSpuriousWake => true
  | _ => false
  end.

End Engine.

Arguments NoiseMaker : clear implicits.
Arguments System : clear implicits.
Arguments event : clear implicits.

End NoiseMaker.

(* ------------------------------------------------------------------ *)
(** ** [m_notesMutex]: the audio thread and the window procedure *)

Module Registry.

Inductive thread : Set := Audio | Input.

Inductive handler : Type :=
| KeyDown (wParam : Z)
| KeyUp (wParam : Z)
| SetWave (type : WaveType).

(** What a handler does once it holds its [lock_guard]. *)
Definition handler_body (h : handler) (am : AudioManager) : AudioManager :=
  match h with
  | KeyDown wParam => HandleKeyDown wParam am
  | KeyUp wParam => HandleKeyUp wParam am
  | SetWave type => SetWaveType type am
  end.

Inductive audio_pc : Type :=
| A_idle                          (* between two calls of the callback *)
| A_entered (dTime : R)           (* StaticNoiseCallback entered *)
| A_lock (type : WaveType) (dTime : R)
                                  (* m_currentWaveType read; at the
                                     lock_guard of Make...Noise *)
| A_iter (type : WaveType) (dTime : R) (pos : nat) (dOutput : R)
                                  (* in the range-for, at entry [pos] *).

Inductive input_pc : Type :=
| I_idle
| I_lock (h : handler)            (* at the lock_guard of the handler *)
| I_body (h : handler)            (* holds the mutex, body still to run *).

Record world : Type := mkWorld {
  inst : AudioManager;
  m_notesMutex : option thread;   (* the owner, if locked *)
  audio : audio_pc;
  input : input_pc;
  returned : list R               (* the values the callback returned *)
}.

Inductive event : Type :=
| Call (dTime : R)       (* the engine calls StaticNoiseCallback(dTime) *)
| Msg (h : handler)      (* a key message or a GUI click arrives *)
| Run (th : thread)      (* thread [th] takes its next step *).

(** The audio thread reads the map in place: each turn of the range-for
    looks at the map as it is in the world at that moment. *)
Definition audio_step (w : world) : option world :=
  match audio w with
  | A_idle => None
  | A_entered dTime =>
      Some (mkWorld (inst w) (m_notesMutex w)
              (A_lock (m_currentWaveType (inst w)) dTime) (input w) (returned w))
  | A_lock type dTime =>
      match m_notesMutex w with
      | None => Some (mkWorld (inst w) (Some Audio) (A_iter type dTime 0 0.0%R)
                        (input w) (returned w))
      | Some _ => None
      end
  | A_iter type dTime pos dOutput =>
      match map_to_list (m_activeNotes (inst w)) !! pos with
      | Some key =>
          Some (mkWorld (inst w) (m_notesMutex w)
                  (A_iter type dTime (S pos) (dOutput + oscillator type key.2 dTime)%R)
                  (input w) (returned w))
      | None =>
          Some (mkWorld (inst w) None A_idle (input w)
                  (returned w ++ [(dOutput * 0.5)%R]))
      end
  end.

Definition input_step (w : world) : option world :=
  match input w with
  | I_idle => None
  | I_lock h =>
      match m_notesMutex w with
      | None => Some (mkWorld (inst w) (Some Input) (audio w) (I_body h) (returned w))
      | Some _ => None
      end
  | I_body h =>
      Some (mkWorld (handler_body h (inst w)) None (audio w) I_idle (returned w))
  end.

Definition step (e : event) (w : world) : option world :=
  match e with
  | Call dTime =>
      match audio w with
      | A_idle => Some (mkWorld (inst w) (m_notesMutex w) (A_entered dTime)
                          (input w) (returned w))
      | _ => None
      end
  | Msg h =>
      match input w with
      | I_idle => Some (mkWorld (inst w) (m_notesMutex w) (audio w) (I_lock h)
                          (returned w))
      | _ => None
      end
  | Run Audio => audio_step w
  | Run Input => input_step w
  end.

Fixpoint run (evs : list event) (w : world) : option world :=
  match evs with
  | [] => Some w
  | e :: evs' =>
      match step e w with
      | Some w' => run evs' w'
      | None => None
      end
  end.

(** Both threads at rest, the mutex free. *)
Definition boot (am : AudioManager) : world := mkWorld am None A_idle I_idle [].

End Registry.

(* ------------------------------------------------------------------ *)
(** ** The specification's side

    What the specification says in its own words, to be compared with the
    definitions above. *)

Module Spec.
Local Open Scope R_scope.

(** The sum of a finite family of contributions. *)
Definition Rsum (xs : list R) : R := foldr Rplus 0 xs.



(** Clipping to [-1, 1]. *)
Definition clamp (x : R) : R := Rmax (-1) (Rmin x 1).

(** Scaling to the largest value of a signed 32-bit sample. *)
Definition quantize (x : R) : Z := Double.trunc (x * IZR (2 ^ 31 - 1)).

(** The frequencies f1 ... fk of the active notes, as the map lists them. *)
Definition frequencies (am : AudioManager) : list R :=
  (map_to_list (m_activeNotes am)).*2.

(** "clip(0.5 * sum of oscillator(fi, t), 1.0) quantized". *)
Definition sample (type : WaveType) (fs : list R) (t : R) : Z :=
  quantize (clamp (0.5 * Rsum (map (fun f => oscillator type f t) fs))).

(** "Rotation order is strict round-robin over the ring: index i, then
    i+1 mod N": the k-th block handed over is block k mod N. *)
Definition round_robin (N : Z) (log : list Z) : Prop :=
  forall (k : nat) (b : Z), log !! k = Some b -> b = (Z.of_nat k mod N)%Z.

(** "A point-in-time copy safe to iterate without holding any lock":
    while the audio thread walks the notes, the mutex is free. *)
Definition lock_free_iteration (w : Registry.world) : Prop :=
  forall type dTime pos dOutput,
    Registry.audio w = Registry.A_iter type dTime pos dOutput ->
    Registry.m_notesMutex w = None.

(** The keys of the mapping: Q W E R T Y U I O P, Z X C V B N M. *)
Definition mapped_keys : list Z :=
  [VirtualKeys.Q; VirtualKeys.W; VirtualKeys.E; VirtualKeys.R; VirtualKeys.T;
   VirtualKeys.Y; VirtualKeys.U; VirtualKeys.I; VirtualKeys.O; VirtualKeys.P;
   VirtualKeys.Z; VirtualKeys.X; VirtualKeys.C; VirtualKeys.V; VirtualKeys.B;
   VirtualKeys.N; VirtualKeys.M].

End Spec.

(* ------------------------------------------------------------------ *)
(** ** Properties of the states of a run *)

Module Invariants.
Import NoiseMaker.

Section Inv.
Context {G : Type}.
Implicit Types (s : System G) (e : event G).

(** The ring is walked in order, and the device reports in the order in
    which it was fed. *)
Definition rotation (N : Z) s : Prop :=
  m_nBlockCount (nm s) = N /\
  m_nBlockCurrent (nm s) = (Z.of_nat (length (generated s)) mod N)%Z /\
  Spec.round_robin N (generated s) /\
  completed s ++ in_flight s = (if hwDevice s then generated s else []).


(** Blocks taken by the thread and not yet reported back. *)
Definition outstanding s : Z :=
  Z.of_nat (length (generated s)) - Z.of_nat (length (completed s)).

(** The free count is the pool size less the outstanding blocks. *)
Definition accounting (N : Z) s : Prop :=
  m_nBlockCount (nm s) = N /\
  completed s ++ in_flight s = (if hwDevice s then generated s else []) /\
  (m_nBlockFree (nm s) + outstanding s = N)%Z /\
  (0 <= m_nBlockFree (nm s))%Z /\
  (pc s = Woken -> 1 <= m_nBlockFree (nm s))%Z.

(** A wake-up of the waiting thread that no completed block stands
    behind: [wait] returning on its own, or the [notify_one] of [Create]
    arriving after the thread has gone to sleep. *)
Definition stray_wake e s : bool :=
  match pc s, e with
  | InWait, EvSpuriousWake => true
  | InWait, EvCreateNotify => start_notify s
  | _, _ => false
  end.

Fixpoint no_stray_wake (evs : list (event G)) s : bool :=
  match evs with
  | [] => true
  | e :: evs' =>
      negb (stray_wake e s) &&
      match step e s with
      | Some s' => no_stray_wake evs' s'
      | None => true
      end
  end.

(** The events that can end a wait. *)
Definition wakes e : bool :=
  match e with
  | EvCallback uMsg => (uMsg =? WOM_DONE)%Z
  | EvCreateNotify => true
  | EvSpuriousWake => true
  | _ => false
  end.

End Inv.

(** The mutex is held by the audio thread exactly while it is inside its
    range-for, and by the input thread exactly while it is inside a
    handler body. *)
Definition iterating (a : Registry.audio_pc) : bool :=
  match a with
  | Registry.A_iter _ _ _ _ => true
  | _ => false
  end.

Definition in_body (i : Registry.input_pc) : bool :=
  match i with
  | Registry.I_body _ => true
  | _ => false
  end.

Definition holder (w : Registry.world) : option Registry.thread :=
  if iterating (Registry.audio w) then Some Registry.Audio
  else if in_body (Registry.input w) then Some Registry.Input
  else None.

(** The running sum is the sum over the entries already visited. *)
Definition partial_sum (w : Registry.world) : Prop :=
  forall type dTime pos dOutput,
    Registry.audio w = Registry.A_iter type dTime pos dOutput ->
    dOutput = accumulate (oscillator type) dTime
                (take pos (map_to_list (m_activeNotes (Registry.inst w)))) 0.0%R.

Definition mutex_discipline (w : Registry.world) : Prop :=
  Registry.m_notesMutex w = holder w /\
  iterating (Registry.audio w) && in_body (Registry.input w) = false /\
  partial_sum w.

End Invariants.

(* ------------------------------------------------------------------ *)
(** ** Concrete inputs *)

Module Inputs.

(** No key held, sine selected. *)
Definition silent : AudioManager := mkAudioManager ∅ Sine.

(** The key Q held (C5). *)
Definition one_note : AudioManager :=
  mkAudioManager {[ VirtualKeys.Q := NoteFrequencies.C5 ]} Sine.

(** An engine of two blocks of four samples at 44100 Hz, on an opened
    device, with the callback of [AudioManager] installed. *)
Definition small_engine : NoiseMaker.NoiseMaker (option AudioManager) :=
  NoiseMaker.SetUserFunction StaticNoiseCallback
    (NoiseMaker.nm (NoiseMaker.Create NoiseMaker.Opened 44100 1 2 4)).

(** The registry holds the key Q at every sample. *)
Definition Q_held (n : nat) : option AudioManager := Some one_note.

(** An engine of one block of one sample on an opened device, without a
    callback: the smallest pool. *)
Definition tiny : NoiseMaker.System unit := NoiseMaker.Create NoiseMaker.Opened 44100 1 1 1.

(** The file-scope state at every sample, when there is none. *)
Definition nothing (n : nat) : unit := tt.

(** The thread starts, fills the only block, finds no free block and
    goes to sleep. *)
Definition until_asleep : list (NoiseMaker.event unit) :=
  [NoiseMaker.EvThread nothing; NoiseMaker.EvThread nothing;
   NoiseMaker.EvThread nothing; NoiseMaker.EvThread nothing].

(** An engine of two blocks of two samples on an opened device, without
    a callback, and the thread starting and filling both blocks. *)
Definition duo : NoiseMaker.System unit := NoiseMaker.Create NoiseMaker.Opened 44100 1 2 2.

Definition two_blocks : list (NoiseMaker.event unit) :=
  [NoiseMaker.EvThread nothing; NoiseMaker.EvThread nothing;
   NoiseMaker.EvThread nothing].

(** ... and then the [notify_one] of [Create] arrives, and the thread
    runs on. *)
Definition late_start_notify : list (NoiseMaker.event unit) :=
  until_asleep ++ [NoiseMaker.EvCreateNotify; NoiseMaker.EvThread nothing].

(** ... and then [Stop] is called. *)
Definition stop_while_asleep : list (NoiseMaker.event unit) :=
  until_asleep ++ [NoiseMaker.EvStop].

(** The device finishes a block, and the thread runs until it returns. *)
Definition device_releases : list (NoiseMaker.event unit) :=
  [NoiseMaker.EvCallback NoiseMaker.WOM_DONE;
   NoiseMaker.EvThread nothing; NoiseMaker.EvThread nothing].

(** The callback is called at time 0, reads the wave type and takes the
    mutex; then the key Q is released and its handler starts. *)
Definition key_up_during_sum : list Registry.event :=
  [Registry.Call 0%R; Registry.Run Registry.Audio; Registry.Run Registry.Audio;
   Registry.Msg (Registry.KeyUp VirtualKeys.Q)].

(** The same engine when the device name is not in the list of devices:
    [Create] opens nothing and starts the thread all the same. *)
Definition orphan : NoiseMaker.System unit :=
  NoiseMaker.Create NoiseMaker.NotListed 44100 1 1 1.

(** The virtual key code of the space bar, which has no note. *)
Definition VK_SPACE : Z := 0x20.

End Inputs.

(* ------------------------------------------------------------------ *)
(** ** AudioManager.cpp: handlers in sequence, construction, destruction *)

(** The object as its member initializers leave it: no note, sine. *)
Definition AudioManager_new : AudioManager := mkAudioManager ∅ Sine.

(** Handler calls one after the other.  The handlers exclude each other
    through [m_notesMutex], so a sequence of calls is what any execution
    of them amounts to. *)
Definition handle_all (hs : list Registry.handler) (am : AudioManager) : AudioManager :=
  foldl (fun a h => Registry.handler_body h a) am hs.

(** Every note of the registry sits at a key of the table, with the
    frequency of the table. *)
Definition table_consistent (am : AudioManager) : Prop :=
  forall (k : Z) (f : R), m_activeNotes am !! k = Some f -> noteFreq_of k = Some f.

(** [AudioManager* AudioManager::s_instance], the constructor and the
    destructor, over the objects that are alive (by address). *)
Module Instances.

Record heap : Type := mkHeap {
  objects : gmap N AudioManager;
  s_instance : option N
}.

(** [AudioManager::AudioManager() { s_instance = this; }] *)
Definition ctor (this : N) (h : heap) : heap :=
  mkHeap (<[this := AudioManager_new]> (objects h)) (Some this).

(** [~AudioManager() { if (s_instance == this) s_instance = nullptr; }] *)
Definition dtor (this : N) (h : heap) : heap :=
  mkHeap (delete this (objects h))
    (if decide (s_instance h = Some this) then None else s_instance h).

Inductive op : Type :=
| New (this : N)       (* an object is constructed in fresh storage *)
| Delete (this : N)    (* a live object is destroyed *)
| Handle (this : N) (hd : Registry.handler)
                       (* a handler is called on a live object *).

(** [None]: the operation cannot happen (the storage is in use, or there
    is no such object). *)
Definition apply (o : op) (h : heap) : option heap :=
  match o with
  | New this =>
      match objects h !! this with
      | None => Some (ctor this h)
      | Some _ => None
      end
  | Delete this =>
      match objects h !! this with
      | Some _ => Some (dtor this h)
      | None => None
      end
  | Handle this hd =>
      match objects h !! this with
      | Some a =>
          Some (mkHeap (<[this := Registry.handler_body hd a]> (objects h))
                  (s_instance h))
      | None => None
      end
  end.

Fixpoint run (os : list op) (h : heap) : option heap :=
  match os with
  | [] => Some h
  | o :: os' =>
      match apply o h with
      | Some h' => run os' h'
      | None => None
      end
  end.

(** What [StaticNoiseCallback] computes on this heap: [None] when
    [s_instance] points to an object that is gone. *)
Definition callback (h : heap) (dTime : R) : option R :=
  match s_instance h with
  | None => Some (StaticNoiseCallback None dTime)
  | Some p =>
      match objects h !! p with
      | Some inst => Some (StaticNoiseCallback (Some inst) dTime)
      | None => None
      end
  end.

Definition empty : heap := mkHeap ∅ None.

End Instances.

(* ------------------------------------------------------------------ *)
(** ** noiseMaker.h: the device list, [Create] by name, [Destroy] *)

Module Devices.
Import NoiseMaker.

(** [GetDevices]: [caps !! n] is the name [waveOutGetDevCaps] reports for
    device [n], or [None] when the call does not return [S_OK]; the
    devices that answer are listed in the order of their numbers. *)
Definition GetDevices (caps : list (option string)) : list string :=
  omap (fun name => name) caps.

(** [std::find] and [distance(devices.begin(), d)]: the position of the
    first entry equal to the name, or [None] for [devices.end()]. *)
Definition nDeviceID (devices : list string) (sOutputDevice : string) : option nat :=
  fst <$> list_find (fun d => d = sOutputDevice) devices.

(** The lookup and the [waveOutOpen] of [Create]; [waveOutOpen_ok n] tells
    whether the device numbered [n] opens. *)
Definition open_device (caps : list (option string)) (waveOutOpen_ok : nat -> bool)
    (sOutputDevice : string) : device_result :=
  match nDeviceID (GetDevices caps) sOutputDevice with
  | None => NotListed
  | Some n => if waveOutOpen_ok n then Opened else OpenFailed
  end.

Section ByName.
Context {G : Type}.

Definition Create_named (caps : list (option string)) (waveOutOpen_ok : nat -> bool)
    (sOutputDevice : string) (nSampleRate nChannels nBlocks nBlockSamples : Z) : System G :=
  Create (open_device caps waveOutOpen_ok sOutputDevice)
    nSampleRate nChannels nBlocks nBlockSamples.

(** [bool Create(...)]: the value returned. *)
Definition Create_returns (dev : device_result) : bool :=
  match dev with
  | OpenFailed => false
  | _ => true
  end.

(** [Destroy]: [if (m_bReady) Stop(); return false;] *)
Definition Destroy (s : System G) : System G :=
  if m_bReady (nm s) then Stop s else s.

End ByName.

(** [AudioManager::Initialize]: [None] is [return false]; otherwise the
    engine as the constructor of [NoiseMaker<int>] leaves it, on which
    [SetUserFunction(StaticNoiseCallback)] is the next event. *)
Definition Initialize (caps : list (option string)) (waveOutOpen_ok : nat -> bool) :
    option (System (option AudioManager)) :=
  match GetDevices caps with
  | [] => None
  | name :: _ => Some (Create_named caps waveOutOpen_ok name 44100 1 8 512)
  end.

End Devices.

(* ------------------------------------------------------------------ *)
(** ** More properties of the states of a run *)

Module Invariants2.
Import NoiseMaker.

Section Inv.
Context {G : Type}.
Implicit Types (s : System G).

(** The memory holds the whole pool and the current index is inside it. *)
Definition well_formed (nBlocks nBlockSamples : Z) s : Prop :=
  m_nBlockCount (nm s) = nBlocks /\
  m_nBlockSamples (nm s) = nBlockSamples /\
  (pc s <> Exited ->
   length (m_pBlockMemory (nm s)) = Z.to_nat (nBlocks * nBlockSamples)) /\
  (0 <= m_nBlockCurrent (nm s) < nBlocks)%Z.

(** Every stored sample is within the symmetric range of the type. *)
Definition samples_in_range s : Prop :=
  Forall (fun v => (- T_MAX <= v <= T_MAX)%Z) (m_pBlockMemory (nm s)).

(** No callback is installed and nothing but zeros has been written. *)
Definition silent_so_far s : Prop :=
  m_userFunction (nm s) = None /\ Forall (fun v => v = 0%Z) (m_pBlockMemory (nm s)).

Definition sets_callback (e : event G) : bool :=
  match e with
  | EvSetUserFunction _ => true
  | _ => false
  end.

(** The events that end a wait without a completed block. *)
Definition stray (e : event G) : bool :=
  match e with
  | EvCreateNotify => true
  | EvSpuriousWake => true
  | _ => false
  end.

End Inv.
End Invariants2.

(* ------------------------------------------------------------------ *)
(** ** More concrete inputs *)

Module Inputs2.

(** The thread starts, fills the only block and reads a free count of 0;
    it has not yet locked the mutex. *)
Definition until_checked : list (NoiseMaker.event unit) :=
  [NoiseMaker.EvThread Inputs.nothing; NoiseMaker.EvThread Inputs.nothing;
   NoiseMaker.EvThread Inputs.nothing].

(** The thread starts and is at the loop test. *)
Definition until_loop : list (NoiseMaker.event unit) :=
  [NoiseMaker.EvThread Inputs.nothing].


End Inputs2.

(* ------------------------------------------------------------------ *)
(** ** The handlers of a run, in the order of their messages *)

Module Schedule.
Import Registry.

(** The handlers whose messages arrived, oldest first. *)
Definition msgs (evs : list event) : list handler :=
  omap (fun e => match e with Msg h => Some h | _ => None end) evs.

(** The handler that has arrived and has not run its body yet. *)
Definition pending (w : world) : list handler :=
  match input w with
  | I_idle => []
  | I_lock h => [h]
  | I_body h => [h]
  end.

(** Steps the audio thread needs, at most, to return from the callback
    once nothing stands in its way. *)
Definition audio_fuel (w : world) : nat :=
  match audio w with
  | A_idle => 0
  | A_entered _ => 3 + length (map_to_list (m_activeNotes (inst w)))
  | A_lock _ _ => 2 + length (map_to_list (m_activeNotes (inst w)))
  | A_iter _ _ pos _ => 1 + (length (map_to_list (m_activeNotes (inst w))) - pos)
  end.

End Schedule.


Module Inputs3.

(** The key Q goes down; the callback is entered while the handler holds
    the mutex; the handler finishes. *)
Definition key_then_call : list Registry.event :=
  [Registry.Msg (Registry.KeyDown VirtualKeys.Q); Registry.Run Registry.Input;
   Registry.Call 0%R; Registry.Run Registry.Input].

(** One [AudioManager] at address 1, with the key Q down. *)
Definition one_manager : list Instances.op :=
  [Instances.New 1%N; Instances.Handle 1%N (Registry.KeyDown VirtualKeys.Q)].

End Inputs3.


(* ------------------------------------------------------------------ *)
(** ** D3DManager.h, D3DManager.cpp *)

Module D3DManager.

(** The fields the program reads back, and the sizes [Reset] was called
    with ([m_pd3dDevice->Reset(&m_d3dpp)]), oldest first. *)
Record D3DManager : Type := mkD3DManager {
  m_DeviceLost : bool;
  m_ResizeWidth : Z;
  m_ResizeHeight : Z;
  BackBufferWidth : Z;
  BackBufferHeight : Z;
  Reset_calls : list (Z * Z)
}.

Definition SetDeviceLostFlag (lost : bool) (d : D3DManager) : D3DManager :=
  mkD3DManager lost (m_ResizeWidth d) (m_ResizeHeight d)
    (BackBufferWidth d) (BackBufferHeight d) (Reset_calls d).

Definition ClearDeviceLostFlag (d : D3DManager) : D3DManager :=
  SetDeviceLostFlag false d.

Definition SetResizeFlags (width height : Z) (d : D3DManager) : D3DManager :=
  mkD3DManager (m_DeviceLost d) width height
    (BackBufferWidth d) (BackBufferHeight d) (Reset_calls d).

Definition ClearResizeFlags (d : D3DManager) : D3DManager :=
  SetResizeFlags 0 0 d.

Definition SetBackBufferSize (width height : Z) (d : D3DManager) : D3DManager :=
  mkD3DManager (m_DeviceLost d) (m_ResizeWidth d) (m_ResizeHeight d)
    width height (Reset_calls d).

Definition ResetDevice (d : D3DManager) : D3DManager :=
  mkD3DManager (m_DeviceLost d) (m_ResizeWidth d) (m_ResizeHeight d)
    (BackBufferWidth d) (BackBufferHeight d)
    (Reset_calls d ++ [(BackBufferWidth d, BackBufferHeight d)]).

(** The object after its constructor. *)
Definition new : D3DManager := mkD3DManager false 0 0 0 0 [].

End D3DManager.

(* ------------------------------------------------------------------ *)
(** ** App.cpp: the window procedure and the frame loop *)

Module App.
Import D3DManager.

(** Constants and macros of the Windows SDK. *)
Definition WM_DESTROY : Z := 0x0002.
Definition WM_SIZE : Z := 0x0005.
Definition WM_KEYDOWN : Z := 0x0100.
Definition WM_KEYUP : Z := 0x0101.
Definition WM_SYSCOMMAND : Z := 0x0112.
Definition SIZE_MINIMIZED : Z := 1.
Definition SC_KEYMENU : Z := 0xF100.
Definition LOWORD (l : Z) : Z := Z.land l 0xffff.
Definition HIWORD (l : Z) : Z := Z.land (Z.shiftr l 16) 0xffff.

(** The two managers the window procedure reaches through
    [g_AppInstance]; [None] is a null [unique_ptr]. *)
Record App : Type := mkApp {
  m_d3dManager : option D3DManager;
  m_audioManager : option AudioManager
}.

(** What the window procedure hands back: a value, or the value of
    [DefWindowProcW]. *)
Inductive lresult : Set :=
| Returned (v : Z)
| DefWindowProcW.

Record reply : Type := mkReply {
  instance : option App;       (* the object behind g_AppInstance *)
  result : lresult;
  PostQuitMessage : bool       (* PostQuitMessage(0) was called *)
}.

Definition key_handler (msg wParam : Z) (am : AudioManager) : AudioManager :=
  if (msg =? WM_KEYDOWN)%Z then HandleKeyDown wParam am
  else if (msg =? WM_KEYUP)%Z then HandleKeyUp wParam am
  else am.

(** [WndProc]; [imgui] tells whether [ImGui_ImplWin32_WndProcHandler]
    returned nonzero. *)
Definition WndProc (imgui : bool) (g_AppInstance : option App)
    (msg wParam lParam : Z) : reply :=
  if imgui then mkReply g_AppInstance (Returned 1) false
  else
    let g1 :=
      match g_AppInstance with
      | Some a =>
          Some (mkApp (m_d3dManager a) (key_handler msg wParam <$> m_audioManager a))
      | None => None
      end in
    let switch :=
      if (msg =? WM_SYSCOMMAND)%Z then
        if (Z.land wParam 0xfff0 =? SC_KEYMENU)%Z then mkReply g1 (Returned 0) false
        else mkReply g1 DefWindowProcW false
      else if (msg =? WM_DESTROY)%Z then mkReply g1 (Returned 0) true
      else mkReply g1 DefWindowProcW false in
    match g1 with
    | Some a =>
        match m_d3dManager a with
        | Some d =>
            if (msg =? WM_SIZE)%Z then
              if (wParam =? SIZE_MINIMIZED)%Z then mkReply g1 (Returned 0) false
              else
                mkReply
                  (Some (mkApp (Some (SetResizeFlags (LOWORD lParam) (HIWORD lParam) d))
                           (m_audioManager a)))
                  (Returned 0) false
            else switch
        | None => switch
        end
    | None => switch
    end.

(** A message as [DispatchMessage] delivers it. *)
Record message : Type := mkMessage {
  imgui : bool;
  msg : Z;
  wParam : Z;
  lParam : Z
}.

Definition dispatch (g : option App) (m : message) : option App :=
  instance (WndProc (imgui m) g (msg m) (wParam m) (lParam m)).

(** The inner loop of [Run]: every pending message goes through the
    window procedure. *)
Definition dispatch_all (ms : list message) (g : option App) : option App :=
  foldl dispatch g ms.

(** The handler a message amounts to, if any. *)
Definition handler_of (m : message) : option Registry.handler :=
  if imgui m then None
  else if (msg m =? WM_KEYDOWN)%Z then Some (Registry.KeyDown (wParam m))
  else if (msg m =? WM_KEYUP)%Z then Some (Registry.KeyUp (wParam m))
  else None.

Inductive hresult : Set :=
| D3DERR_DEVICELOST
| D3DERR_DEVICENOTRESET
| D3D_other.

(** What the outside world answers during one frame. *)
Record frame_input : Type := mkFrameInput {
  TestCooperativeLevel : hresult;
  Begin : bool;                 (* ImGui::Begin (the window is not collapsed) *)
  Button_Sine : bool;           (* ImGui::Button ("Sine Wave") *)
  Button_Square : bool;
  Present : hresult
}.

(** The two buttons of the control window. *)
Definition buttons (i : frame_input) (am : AudioManager) : AudioManager :=
  if Begin i then
    let am0 := if Button_Sine i then SetWaveType Sine am else am in
    if Button_Square i then SetWaveType Square am0 else am0
  else am.

(** The body of the outer loop of [Run] after the messages, from
    [IsDeviceLost] on.  [None]: a null manager is dereferenced. *)
Definition frame (i : frame_input) (a : App) : option App :=
  match m_d3dManager a, m_audioManager a with
  | Some d, Some am =>
      let lost :=
        if m_DeviceLost d then
          match TestCooperativeLevel i with
          | D3DERR_DEVICELOST => None          (* Sleep(10); continue *)
          | D3DERR_DEVICENOTRESET => Some (ClearDeviceLostFlag (ResetDevice d))
          | D3D_other => Some (ClearDeviceLostFlag d)
          end
        else Some d in
      match lost with
      | None => Some a
      | Some d1 =>
          let resizeWidth := m_ResizeWidth d1 in
          let resizeHeight := m_ResizeHeight d1 in
          let d2 :=
            if negb (resizeWidth =? 0)%Z && negb (resizeHeight =? 0)%Z then
              ClearResizeFlags (ResetDevice (SetBackBufferSize resizeWidth resizeHeight d1))
            else d1 in
          let am1 := buttons i am in
          let d3 :=
            match Present i with
            | D3DERR_DEVICELOST => SetDeviceLostFlag true d2
            | _ => d2
            end in
          Some (mkApp (Some d3) (Some am1))
      end
  | _, _ => None
  end.

(** The outer loop of [Run], one frame after the other. *)
Fixpoint frames (inputs : list frame_input) (a : App) : option App :=
  match inputs with
  | [] => Some a
  | i :: inputs' =>
      match frame i a with
      | Some a' => frames inputs' a'
      | None => None
      end
  end.

End App.

(* ------------------------------------------------------------------ *)
(** ** App.cpp: [App::Initialize] and what it acquires *)

Module Startup.

(** What the system calls answer. *)
Record environment : Type := mkEnvironment {
  RegisterClassExW_ok : bool;
  CreateWindowW_ok : bool;         (* returns a window handle *)
  Direct3DCreate9_ok : bool;       (* returns an interface *)
  CreateDevice_ok : bool;          (* returns >= 0 *)
  caps : list (option string);     (* waveOutGetDevCaps, by device number *)
  waveOutOpen_ok : nat -> bool
}.

(** The handles the objects hold (true: not null) and what is alive on
    the side of the system. *)
Record resources : Type := mkResources {
  m_hWnd : bool;
  m_wc_hInstance : bool;
  m_pD3D : bool;
  m_pd3dDevice : bool;
  class_registered : bool;
  window : bool;
  d3d_interface : bool;
  d3d_device : bool;
  imgui_context : bool;
  m_sound : option (NoiseMaker.System (option AudioManager))
}.

(** Nothing acquired: the objects as their member initializers leave
    them. *)
Definition nothing : resources :=
  mkResources false false false false false false false false false None.

(** [App::CreateAppWindow]; [GetModuleHandle(nullptr)] is the handle of
    the program and not null. *)
Definition CreateAppWindow (env : environment) (r : resources) : bool * resources :=
  (CreateWindowW_ok env,
   mkResources (CreateWindowW_ok env) true (m_pD3D r) (m_pd3dDevice r)
     (class_registered r || RegisterClassExW_ok env)
     (CreateWindowW_ok env) (d3d_interface r) (d3d_device r) (imgui_context r)
     (m_sound r)).

Definition CleanupAppWindow (r : resources) : resources :=
  mkResources false false (m_pD3D r) (m_pd3dDevice r)
    (if m_wc_hInstance r then false else class_registered r)
    (if m_hWnd r then false else window r)
    (d3d_interface r) (d3d_device r) (imgui_context r) (m_sound r).

(** [D3DManager::Initialize] *)
Definition D3D_Initialize (env : environment) (r : resources) : bool * resources :=
  if negb (Direct3DCreate9_ok env) then
    (false,
     mkResources (m_hWnd r) (m_wc_hInstance r) false (m_pd3dDevice r)
       (class_registered r) (window r) (d3d_interface r) (d3d_device r)
       (imgui_context r) (m_sound r))
  else
    (CreateDevice_ok env,
     mkResources (m_hWnd r) (m_wc_hInstance r) true
       (m_pd3dDevice r || CreateDevice_ok env)
       (class_registered r) (window r) true (d3d_device r || CreateDevice_ok env)
       (imgui_context r) (m_sound r)).

(** [D3DManager::Shutdown] *)
Definition D3D_Shutdown (r : resources) : resources :=
  mkResources (m_hWnd r) (m_wc_hInstance r) false false
    (class_registered r) (window r)
    (if m_pD3D r then false else d3d_interface r)
    (if m_pd3dDevice r then false else d3d_device r)
    (imgui_context r) (m_sound r).

(** [GuiManager::Initialize] returns true on every path. *)
Definition Gui_Initialize (r : resources) : bool * resources :=
  (true,
   mkResources (m_hWnd r) (m_wc_hInstance r) (m_pD3D r) (m_pd3dDevice r)
     (class_registered r) (window r) (d3d_interface r) (d3d_device r) true (m_sound r)).

Definition Gui_Shutdown (r : resources) : resources :=
  mkResources (m_hWnd r) (m_wc_hInstance r) (m_pD3D r) (m_pd3dDevice r)
    (class_registered r) (window r) (d3d_interface r) (d3d_device r) false (m_sound r).

(** [AudioManager::Initialize] *)
Definition Audio_Initialize (env : environment) (r : resources) : bool * resources :=
  match Devices.Initialize (caps env) (waveOutOpen_ok env) with
  | None => (false, r)
  | Some s =>
      (true,
       mkResources (m_hWnd r) (m_wc_hInstance r) (m_pD3D r) (m_pd3dDevice r)
         (class_registered r) (window r) (d3d_interface r) (d3d_device r)
         (imgui_context r) (Some s))
  end.

(** [App::Initialize] *)
Definition Initialize (env : environment) (r : resources) : bool * resources :=
  let (ok1, r1) := CreateAppWindow env r in
  if negb ok1 then (false, r1)
  else
    let (ok2, r2) := D3D_Initialize env r1 in
    if negb ok2 then (false, CleanupAppWindow r2)
    else
      let (ok3, r3) := Gui_Initialize r2 in
      if negb ok3 then (false, CleanupAppWindow (D3D_Shutdown r3))
      else
        let (ok4, r4) := Audio_Initialize env r3 in
        if negb ok4 then
          (false, CleanupAppWindow (D3D_Shutdown (Gui_Shutdown r4)))
        else (true, r4).


End Startup.


(* ================================================================== *)
(** * Theorems *)

(* ------------------------------------------------------------------ *)
(** ** <cmath> *)

Section DoubleFacts.
Local Open Scope R_scope.

Lemma trunc_IZR (z : Z) : Double.trunc (IZR z) = z.
Proof.
  unfold Double.trunc. destruct (Rle_dec 0 (IZR z)) as [H|H].
  - symmetry. apply Int_part_spec. lra.
  - rewrite <- opp_IZR. replace (Int_part (IZR (- z))) with (- z)%Z.
    + lia.
    + apply Int_part_spec. lra.
Qed.


(** The truncation lies between 0 and the value. *)
Lemma trunc_bounds (x : R) :
  (0 <= x -> 0 <= IZR (Double.trunc x) <= x) /\
  (x <= 0 -> x <= IZR (Double.trunc x) <= 0).
Proof.
  unfold Double.trunc. destruct (Rle_dec 0 x) as [H|H].
  - destruct (base_Int_part x) as [H1 H2]. split; intros H0.
    + split; [| lra].
      assert (Hz : (0 <= Int_part x)%Z).
      { apply le_IZR. destruct (Z_le_gt_dec 0 (Int_part x)) as [Hle|Hgt].
        - apply IZR_le; exact Hle.
        - exfalso. assert (IZR (Int_part x) <= -1) by (apply IZR_le; lia). lra. }
      apply IZR_le in Hz. exact Hz.
    + assert (x = 0) by lra. subst x.
      replace (Int_part 0) with 0%Z by (apply Int_part_spec; simpl; lra).
      simpl. lra.
  - destruct (base_Int_part (- x)) as [H1 H2]. rewrite opp_IZR. split; intros H0.
    + lra.
    + split; [lra |].
      assert (Hz : (0 <= Int_part (- x))%Z).
      { destruct (Z_le_gt_dec 0 (Int_part (- x))) as [Hle|Hgt]; [exact Hle |].
        exfalso. assert (IZR (Int_part (- x)) <= -1) by (apply IZR_le; lia). lra. }
      apply IZR_le in Hz. lra.
Qed.



End DoubleFacts.

(* ------------------------------------------------------------------ *)
(** ** The oscillator bank *)

Section Oscillators.
Local Open Scope R_scope.




Lemma SquareSoundMaker_values (f t : R) :
  SquareSoundMaker f t = 1 \/ SquareSoundMaker f t = -1.
Proof.
  unfold SquareSoundMaker. cbv zeta.
  destruct (Rlt_dec (Double.fmod (f * t) 1.0) 0.5); [left | right]; lra.
Qed.





Lemma oscillator_bound (type : WaveType) (f t : R) : Rabs (oscillator type f t) <= 1.
Proof.
  destruct type; simpl.
  - unfold SineSoundMaker. apply Rabs_le. apply SIN_bound.
  - destruct (SquareSoundMaker_values f t) as [-> | ->];
      unfold Rabs; destruct (Rcase_abs _); lra.
Qed.

End Oscillators.

(* ------------------------------------------------------------------ *)
(** ** The active-note registry *)

Section RegistryFacts.

Lemma noteFreq_of_unmapped (wParam : Z) :
  ~ In wParam Spec.mapped_keys -> noteFreq_of wParam = None.
Proof.
  intros H. unfold noteFreq_of.
  repeat match goal with
  | |- context [Z.eqb wParam ?k] =>
      destruct (Z.eqb_spec wParam k) as [E|_];
      [exfalso; apply H; rewrite E; unfold Spec.mapped_keys; simpl; tauto |]
  end.
  reflexivity.
Qed.

Lemma noteFreq_of_mapped (wParam : Z) :
  In wParam Spec.mapped_keys -> is_Some (noteFreq_of wParam).
Proof.
  unfold Spec.mapped_keys. simpl.
  intros H. repeat (destruct H as [<- | H]; [eexists; reflexivity |]). destruct H.
Qed.

(** C9: a key-down for a key code outside the seventeen mapped virtual
    keys leaves the whole object as it was: the registry (no entry added,
    removed or changed) and the waveform selection. *)
Theorem HandleKeyDown_unmapped_key (am : AudioManager) (wParam : Z) :
  ~ In wParam Spec.mapped_keys -> HandleKeyDown wParam am = am.
Proof.
  intros H. unfold HandleKeyDown.
  destruct (m_activeNotes am !! wParam); [reflexivity |].
  unfold MapNoteFrequency. now rewrite noteFreq_of_unmapped.
Qed.

Lemma HandleKeyDown_unmapped_key_witness :
  HandleKeyDown Inputs.VK_SPACE Inputs.one_note = Inputs.one_note.
Proof.
  apply (HandleKeyDown_unmapped_key Inputs.one_note Inputs.VK_SPACE).
  unfold Spec.mapped_keys, Inputs.VK_SPACE. simpl. intros H.
  repeat (destruct H as [H | H]; [discriminate H |]). exact H.
Defined.

Lemma set_activeNotes_id (am : AudioManager) :
  set_activeNotes (m_activeNotes am) am = am.
Proof. destruct am; reflexivity. Qed.

Lemma HandleKeyUp_lookup (am : AudioManager) (wParam : Z) :
  m_activeNotes (HandleKeyUp wParam am) !! wParam = None.
Proof. unfold HandleKeyUp. simpl. apply lookup_delete_eq. Qed.

Lemma HandleKeyUp_other (am : AudioManager) (wParam k : Z) :
  wParam <> k ->
  m_activeNotes (HandleKeyUp wParam am) !! k = m_activeNotes am !! k.
Proof. intros H. unfold HandleKeyUp. simpl. now apply lookup_delete_ne. Qed.

(** C8: key-up for an id that is not in the registry returns the object
    unchanged (the function is total: there is no error case); key-down
    followed at once by key-up for the same id leaves the registry without
    that id, and exactly as it was when the id was absent before. *)
Theorem HandleKeyUp_absent_and_after_KeyDown (am : AudioManager) (wParam : Z) :
  (m_activeNotes am !! wParam = None -> HandleKeyUp wParam am = am) /\
  m_activeNotes (HandleKeyUp wParam (HandleKeyDown wParam am)) !! wParam = None /\
  (m_activeNotes am !! wParam = None ->
   HandleKeyUp wParam (HandleKeyDown wParam am) = am).
Proof.
  assert (Hid : forall a, m_activeNotes a !! wParam = None -> HandleKeyUp wParam a = a).
  { intros a Ha. unfold HandleKeyUp. rewrite (delete_id _ _ Ha).
    apply set_activeNotes_id. }
  split; [apply Hid |]. split; [apply HandleKeyUp_lookup |].
  intros Habs. unfold HandleKeyDown. rewrite Habs.
  unfold MapNoteFrequency. destruct (noteFreq_of wParam) as [fr|].
  - unfold HandleKeyUp, set_activeNotes. simpl.
    rewrite (delete_insert_id _ _ _ Habs). destruct am; reflexivity.
  - now apply Hid.
Qed.

Lemma HandleKeyUp_absent_and_after_KeyDown_witness :
  m_activeNotes Inputs.silent !! VirtualKeys.Q = None /\
  HandleKeyUp VirtualKeys.Q Inputs.silent = Inputs.silent /\
  HandleKeyUp VirtualKeys.Q (HandleKeyDown VirtualKeys.Q Inputs.silent) = Inputs.silent.
Proof.
  assert (H : m_activeNotes Inputs.silent !! VirtualKeys.Q = None) by reflexivity.
  destruct (HandleKeyUp_absent_and_after_KeyDown Inputs.silent VirtualKeys.Q)
    as (H1 & _ & H3).
  split; [exact H |]. split; [exact (H1 H) | exact (H3 H)].
Defined.

End RegistryFacts.

(* ------------------------------------------------------------------ *)
(** ** Mixing *)

Section Mixing.
Local Open Scope R_scope.

Lemma Rsum_app (xs ys : list R) : Spec.Rsum (xs ++ ys) = Spec.Rsum xs + Spec.Rsum ys.
Proof. induction xs as [|x xs IH]; simpl; [lra | rewrite IH; lra]. Qed.

(** The order in which the entries are visited does not change the sum. *)
Lemma Rsum_Permutation (xs ys : list R) : xs ≡ₚ ys -> Spec.Rsum xs = Spec.Rsum ys.
Proof.
  induction 1 as [| x xs ys _ IH | x y xs | xs ys zs _ IH1 _ IH2]; simpl.
  - reflexivity.
  - rewrite IH. reflexivity.
  - lra.
  - now rewrite IH1.
Qed.

Lemma Rsum_bound (xs : list R) :
  Forall (fun x => Rabs x <= 1) xs -> Rabs (Spec.Rsum xs) <= INR (length xs).
Proof.
  induction 1 as [| x xs Hx _ IH].
  - simpl. rewrite Rabs_R0. lra.
  - change (Spec.Rsum (x :: xs)) with (x + Spec.Rsum xs).
    rewrite length_cons, S_INR.
    eapply Rle_trans; [apply Rabs_triang |].
    rewrite Rplus_comm. now apply Rplus_le_compat.
Qed.

(** The accumulation loop computes the sum of the contributions. *)
Lemma accumulate_Rsum (mk : R -> R -> R) (t : R) (entries : list (Z * R)) (acc : R) :
  accumulate mk t entries acc = acc + Spec.Rsum (map (fun f => mk f t) entries.*2).
Proof.
  unfold accumulate. revert acc.
  induction entries as [| key entries IH]; intros acc.
  - simpl. lra.
  - rewrite fmap_cons. cbn [foldl map Spec.Rsum foldr]. rewrite IH.
    unfold Spec.Rsum. lra.
Qed.

Lemma accumulate_take_S (mk : R -> R -> R) (t : R) (entries : list (Z * R))
    (pos : nat) (key : Z * R) (acc : R) :
  entries !! pos = Some key ->
  accumulate mk t (take (S pos) entries) acc =
  accumulate mk t (take pos entries) acc + mk key.2 t.
Proof.
  intros H. rewrite (take_S_r _ _ _ H). unfold accumulate.
  rewrite foldl_app. reflexivity.
Qed.

Lemma length_frequencies (am : AudioManager) :
  length (Spec.frequencies am) = size (m_activeNotes am).
Proof. unfold Spec.frequencies. rewrite length_fmap. apply length_map_to_list. Qed.

Lemma StaticNoiseCallback_Rsum (am : AudioManager) (fs : list R) (t : R) :
  fs ≡ₚ Spec.frequencies am ->
  StaticNoiseCallback (Some am) t =
  0.5 * Spec.Rsum (map (fun f => oscillator (m_currentWaveType am) f t) fs).
Proof.
  intros Hp. rewrite (Rsum_Permutation _ (map (fun f => oscillator (m_currentWaveType am) f t)
                                            (Spec.frequencies am))).
  - unfold StaticNoiseCallback, MakeSineNoise, MakeSquareNoise, Spec.frequencies.
    destruct (m_currentWaveType am); rewrite accumulate_Rsum; simpl; lra.
  - now apply Permutation_map.
Qed.

Lemma MakeNoise_oscillator (am : AudioManager) (type : WaveType) (t : R) :
  match type with Sine => MakeSineNoise am t | Square => MakeSquareNoise am t end =
  0.5 * Spec.Rsum (map (fun f => oscillator type f t) (Spec.frequencies am)).
Proof.
  unfold MakeSineNoise, MakeSquareNoise, Spec.frequencies.
  destruct type; rewrite accumulate_Rsum; simpl; lra.
Qed.

Lemma MakeNoise_bound (am : AudioManager) (type : WaveType) (t : R) :
  Rabs (match type with Sine => MakeSineNoise am t | Square => MakeSquareNoise am t end)
  <= 0.5 * INR (size (m_activeNotes am)).
Proof.
  rewrite MakeNoise_oscillator, Rabs_mult, <- length_frequencies.
  assert (H : Rabs (Spec.Rsum (map (fun f => oscillator type f t) (Spec.frequencies am)))
              <= INR (length (Spec.frequencies am))).
  { rewrite <- (length_map (fun f => oscillator type f t)). apply Rsum_bound.
    apply List.Forall_forall. intros x Hx. apply in_map_iff in Hx.
    destruct Hx as (f & <- & _). apply oscillator_bound. }
  replace (Rabs 0.5) with 0.5 by (unfold Rabs; destruct (Rcase_abs _); lra).
  lra.
Qed.

(** [clip(x, 1.0)] is the clamp to [-1, 1]. *)
Lemma clip_clamp (x : R) : NoiseMaker.clip x 1.0 = Spec.clamp x.
Proof.
  unfold NoiseMaker.clip, Spec.clamp, Double.fmin, Double.fmax, Rmax, Rmin.
  destruct (Rle_dec x 1) as [H1|H1];
    [destruct (Rle_dec (-1) x) | destruct (Rle_dec (-1) 1)];
    destruct (Rge_dec x 0.0);
    match goal with |- context [Rle_dec x ?b] => destruct (Rle_dec x b) end;
    lra.
Qed.

Lemma clamp_range (x : R) : -1 <= Spec.clamp x <= 1.
Proof.
  unfold Spec.clamp, Rmax, Rmin.
  destruct (Rle_dec x 1);
    [destruct (Rle_dec (-1) x) | destruct (Rle_dec (-1) 1)]; lra.
Qed.

Lemma Rabs_le_between (a b : R) : Rabs a <= b -> - b <= a <= b.
Proof. unfold Rabs. destruct (Rcase_abs a); lra. Qed.

Lemma clamp_id (x : R) : Rabs x <= 1 -> Spec.clamp x = x.
Proof.
  intros H. apply Rabs_le_between in H.
  unfold Spec.clamp, Rmax, Rmin.
  destruct (Rle_dec x 1);
    [destruct (Rle_dec (-1) x) | destruct (Rle_dec (-1) 1)]; lra.
Qed.

(** C10: with k active notes the value returned by either mixing function
    has magnitude at most 0.5 k, at every time; with at most two notes the
    magnitude is at most 1 and [clip(., 1.0)] returns its argument. *)
Theorem MakeNoise_magnitude_and_clip (am : AudioManager) (t : R) :
  Rabs (MakeSineNoise am t) <= 0.5 * INR (size (m_activeNotes am)) /\
  Rabs (MakeSquareNoise am t) <= 0.5 * INR (size (m_activeNotes am)) /\
  ((size (m_activeNotes am) <= 2)%nat ->
   Rabs (MakeSineNoise am t) <= 1 /\
   Rabs (MakeSquareNoise am t) <= 1 /\
   NoiseMaker.clip (MakeSineNoise am t) 1.0 = MakeSineNoise am t /\
   NoiseMaker.clip (MakeSquareNoise am t) 1.0 = MakeSquareNoise am t).
Proof.
  pose proof (MakeNoise_bound am Sine t) as Hs.
  pose proof (MakeNoise_bound am Square t) as Hq.
  simpl in Hs, Hq.
  split; [exact Hs |]. split; [exact Hq |].
  intros Hk. apply le_INR in Hk. simpl in Hk.
  assert (H1 : Rabs (MakeSineNoise am t) <= 1) by lra.
  assert (H2 : Rabs (MakeSquareNoise am t) <= 1) by lra.
  repeat split; try assumption; rewrite clip_clamp; now apply clamp_id.
Qed.

Lemma MakeNoise_magnitude_and_clip_witness :
  (size (m_activeNotes Inputs.one_note) <= 2)%nat /\
  NoiseMaker.clip (MakeSquareNoise Inputs.one_note 0) 1.0 = MakeSquareNoise Inputs.one_note 0.
Proof.
  assert (H : (size (m_activeNotes Inputs.one_note) <= 2)%nat).
  { unfold Inputs.one_note. simpl. rewrite map_size_singleton. lia. }
  split; [exact H |].
  destruct (MakeNoise_magnitude_and_clip Inputs.one_note 0) as (_ & _ & Hc).
  exact (proj2 (proj2 (proj2 (Hc H)))).
Defined.

End Mixing.

(* ------------------------------------------------------------------ *)
(** ** Quantization *)

Section Quantization.
Local Open Scope R_scope.

Lemma pow_2_31 : powerRZ 2 (NoiseMaker.sizeof_T * 8 - 1) = IZR (2 ^ 31).
Proof.
  change (NoiseMaker.sizeof_T * 8 - 1)%Z with (Z.of_nat 31).
  rewrite <- pow_powerRZ. change (2 ^ 31)%Z with (2 ^ Z.of_nat 31)%Z.
  now rewrite <- pow_IZR.
Qed.

(** The "goofy hack" lands on the largest [int]: the conversion of 2^31
    overflows to the smallest, and the subtraction wraps around. *)
Lemma nMaxSample_value : NoiseMaker.nMaxSample = (2 ^ 31 - 1)%Z.
Proof.
  unfold NoiseMaker.nMaxSample, NoiseMaker.to_T. cbv zeta.
  rewrite pow_2_31, trunc_IZR. reflexivity.
Qed.

Lemma nMaxSample_is_T_MAX : NoiseMaker.nMaxSample = NoiseMaker.T_MAX.
Proof. rewrite nMaxSample_value. reflexivity. Qed.

(** A value within the range of [T] is converted by truncation. *)
Lemma to_T_in_range (x : R) :
  - IZR (2 ^ 31 - 1) <= x <= IZR (2 ^ 31 - 1) -> NoiseMaker.to_T x = Double.trunc x.
Proof.
  intros [Hlo Hhi]. unfold NoiseMaker.to_T. cbv zeta.
  assert (Hz : (NoiseMaker.T_MIN <= Double.trunc x <= NoiseMaker.T_MAX)%Z).
  { change NoiseMaker.T_MIN with (- 2 ^ 31)%Z.
    change NoiseMaker.T_MAX with (2 ^ 31 - 1)%Z.
    destruct (trunc_bounds x) as [Hp Hn].
    destruct (Rle_dec 0 x) as [H0|H0].
    - specialize (Hp H0). split; apply le_IZR.
      + apply Rle_trans with 0; [| tauto]. apply IZR_le. lia.
      + lra.
    - specialize (Hn ltac:(lra)). split; apply le_IZR.
      + apply Rle_trans with (- IZR (2 ^ 31 - 1)); [| lra].
        rewrite <- opp_IZR. apply IZR_le. lia.
      + apply Rle_trans with 0; [tauto |]. apply IZR_le. lia. }
  destruct Hz as [H1 H2].
  apply Z.leb_le in H1. apply Z.leb_le in H2. now rewrite H1, H2.
Qed.

(** Clip, scale, convert: the quantization of the clamped value. *)
Lemma clip_scale_cast (x : R) :
  NoiseMaker.to_T (NoiseMaker.clip x 1.0 * NoiseMaker.dMaxSample) =
  Spec.quantize (Spec.clamp x).
Proof.
  unfold NoiseMaker.dMaxSample, Spec.quantize.
  rewrite nMaxSample_value, clip_clamp.
  apply to_T_in_range.
  pose proof (clamp_range x) as Hc.
  assert (Hm : 0 <= IZR (2 ^ 31 - 1)) by (apply IZR_le; lia).
  generalize dependent (IZR (2 ^ 31 - 1)). generalize dependent (Spec.clamp x).
  intros c Hc m Hm. nra.
Qed.

Lemma quantize_0 : Spec.quantize (Spec.clamp 0) = 0%Z.
Proof.
  rewrite clamp_id by (rewrite Rabs_R0; lra).
  unfold Spec.quantize. rewrite Rmult_0_l. apply (trunc_IZR 0).
Qed.

End Quantization.

(* ------------------------------------------------------------------ *)
(** ** Filling one block *)

Section FillBlock.
Import NoiseMaker.
Context {G : Type}.
Implicit Types (nm : NoiseMaker G) (g : nat -> G).
Local Open Scope R_scope.

Lemma nNewSample_ext (x : G) nm1 nm2 :
  m_userFunction nm1 = m_userFunction nm2 ->
  m_dGlobalTime nm1 = m_dGlobalTime nm2 ->
  nNewSample x nm1 = nNewSample x nm2.
Proof. intros H1 H2. unfold nNewSample. now rewrite H1, H2. Qed.

Lemma sample_step_Some (x : G) (n : nat) nm nm' :
  sample_step x n nm = Some nm' ->
  let i := Z.to_nat (u32 (nCurrentBlock nm + Z.of_nat n)) in
  (i < length (m_pBlockMemory nm))%nat /\
  nm' = with_GlobalTime (m_dGlobalTime nm + dTimeStep nm)
          (with_BlockMemory (<[i := nNewSample x nm]> (m_pBlockMemory nm)) nm).
Proof.
  unfold sample_step. cbv zeta. case_decide; [| discriminate].
  intros [= <-]. split; [assumption | reflexivity].
Qed.

Lemma u32_small (z : Z) : (0 <= z < 2 ^ 32)%Z -> u32 z = z.
Proof. intros H. unfold u32. now apply Z.mod_small. Qed.

(** What the [for] loop leaves behind when the index arithmetic does not
    wrap: the clock has advanced once per sample, the sample at position
    [n + j] is the one computed at the clock of that moment, and nothing
    else in the memory has changed. *)
Lemma fill_from_Some g (k n : nat) nm nm' :
  (0 <= nCurrentBlock nm)%Z ->
  (nCurrentBlock nm + Z.of_nat n + Z.of_nat k <= 2 ^ 32)%Z ->
  fill_from g n k nm = Some nm' ->
  let base := Z.to_nat (nCurrentBlock nm) in
  exists mem',
    nm' = with_GlobalTime (m_dGlobalTime nm + INR k * dTimeStep nm)
            (with_BlockMemory mem' nm) /\
    length mem' = length (m_pBlockMemory nm) /\
    (forall j, (j < k)%nat ->
       mem' !! (base + n + j)%nat = Some (nNewSample (g (n + j)%nat) (at_sample j nm))) /\
    (forall i, (i < base + n)%nat \/ (base + n + k <= i)%nat ->
       mem' !! i = m_pBlockMemory nm !! i).
Proof.
  cbv zeta. revert n nm nm'.
  induction k as [| k IH]; intros n nm nm' Hb Hr Hf.
  - simpl in Hf. injection Hf as <-. exists (m_pBlockMemory nm).
    split; [| split; [reflexivity | split; [intros j Hj; lia | reflexivity]]].
    destruct nm; unfold with_GlobalTime, with_BlockMemory; simpl.
    f_equal. lra.
  - simpl in Hf. destruct (sample_step (g n) n nm) as [nm1|] eqn:Hs; [| discriminate].
    apply sample_step_Some in Hs. cbv zeta in Hs. destruct Hs as [Hlt ->].
    rewrite u32_small in * by lia.
    set (i := Z.to_nat (nCurrentBlock nm + Z.of_nat n)) in *.
    assert (Hi : i = (Z.to_nat (nCurrentBlock nm) + n)%nat) by lia.
    apply IH in Hf; [| exact Hb | change (nCurrentBlock _) with (nCurrentBlock nm); lia].
    change (nCurrentBlock (with_GlobalTime _ _)) with (nCurrentBlock nm) in Hf.
    destruct Hf as (mem' & -> & Hlen & Hin & Hout).
    simpl in Hlen. rewrite length_insert in Hlen.
    exists mem'. split; [| split; [exact Hlen | split]].
    + rewrite S_INR.
      destruct nm; unfold with_GlobalTime, with_BlockMemory, dTimeStep; simpl.
      f_equal. lra.
    + intros j Hj. destruct j as [| j].
      * rewrite Hout by lia. simpl.
        replace (Z.to_nat (nCurrentBlock nm) + n + 0)%nat with i by lia.
        rewrite list_lookup_insert_eq by exact Hlt. f_equal.
        replace (n + 0)%nat with n by lia.
        apply nNewSample_ext; [reflexivity |]. simpl. lra.
      * replace (Z.to_nat (nCurrentBlock nm) + n + S j)%nat
          with (Z.to_nat (nCurrentBlock nm) + S n + j)%nat by lia.
        rewrite Hin by lia. f_equal.
        replace (n + S j)%nat with (S n + j)%nat by lia.
        apply nNewSample_ext; [reflexivity |].
        unfold at_sample, dTimeStep. rewrite S_INR. simpl. lra.
    + intros i' Hi'. rewrite Hout by lia. simpl.
      apply list_lookup_insert_ne. lia.
Qed.

(** The loop runs to its end when the block lies inside the memory. *)
Lemma fill_from_total g (k n : nat) nm :
  (0 <= nCurrentBlock nm)%Z ->
  (nCurrentBlock nm + Z.of_nat n + Z.of_nat k <= 2 ^ 32)%Z ->
  (Z.to_nat (nCurrentBlock nm) + n + k <= length (m_pBlockMemory nm))%nat ->
  is_Some (fill_from g n k nm).
Proof.
  revert n nm. induction k as [| k IH]; intros n nm Hb Hr Hl.
  - simpl. eexists; reflexivity.
  - simpl. unfold sample_step. rewrite u32_small by lia.
    case_decide; [| lia].
    apply IH; simpl.
    + exact Hb.
    + change (nCurrentBlock _) with (nCurrentBlock nm). lia.
    + change (nCurrentBlock _) with (nCurrentBlock nm). rewrite length_insert. lia.
Qed.

End FillBlock.

(* ------------------------------------------------------------------ *)
(** ** One turn of the producer loop *)

Section LoopBody.
Import NoiseMaker.
Context {G : Type}.
Implicit Types (nm : NoiseMaker G) (g : nat -> G).
Local Open Scope R_scope.

(** Whatever the indices do, the loop touches the memory and the clock
    only, and the memory keeps its length. *)
Lemma fill_from_fields g (k n : nat) nm nm' :
  fill_from g n k nm = Some nm' ->
  exists mem',
    nm' = with_GlobalTime (m_dGlobalTime nm + INR k * dTimeStep nm)
            (with_BlockMemory mem' nm) /\
    length mem' = length (m_pBlockMemory nm).
Proof.
  revert n nm nm'. induction k as [| k IH]; intros n nm nm' Hf.
  - simpl in Hf. injection Hf as <-. exists (m_pBlockMemory nm).
    split; [| reflexivity].
    destruct nm; unfold with_GlobalTime, with_BlockMemory; simpl. f_equal. lra.
  - simpl in Hf. destruct (sample_step (g n) n nm) as [nm1|] eqn:Hs; [| discriminate].
    apply sample_step_Some in Hs. cbv zeta in Hs. destruct Hs as [_ ->].
    apply IH in Hf. destruct Hf as (mem' & -> & Hlen).
    simpl in Hlen. rewrite length_insert in Hlen.
    exists mem'. split; [| exact Hlen]. rewrite S_INR.
    destruct nm; unfold with_GlobalTime, with_BlockMemory, dTimeStep; simpl.
    f_equal. lra.
Qed.

(** The fields after one turn of the loop. *)
Lemma loop_body_fields g nm nm' :
  loop_body g nm = Some nm' ->
  exists mem',
    nm' = mkNoiseMaker (m_userFunction nm) (m_nSampleRate nm) (m_nChannels nm)
            (m_nBlockCount nm) (m_nBlockSamples nm)
            (u32 (m_nBlockCurrent nm + 1) mod m_nBlockCount nm) mem'
            (m_bReady nm) (u32 (m_nBlockFree nm - 1))
            (m_dGlobalTime nm + INR (Z.to_nat (m_nBlockSamples nm)) * dTimeStep nm) /\
    length mem' = length (m_pBlockMemory nm) /\
    m_nBlockCount nm <> 0%Z /\
    fill_block g (with_BlockFree (u32 (m_nBlockFree nm - 1)) nm) =
      Some (with_GlobalTime
              (m_dGlobalTime nm + INR (Z.to_nat (m_nBlockSamples nm)) * dTimeStep nm)
              (with_BlockMemory mem' (with_BlockFree (u32 (m_nBlockFree nm - 1)) nm))).
Proof.
  unfold loop_body. intros H.
  destruct (fill_block g _) as [nm1|] eqn:Hf; [| discriminate].
  unfold fill_block in Hf.
  apply fill_from_fields in Hf. destruct Hf as (mem' & -> & Hlen).
  unfold rotate in H. simpl in H.
  destruct (m_nBlockCount nm =? 0)%Z eqn:Hc; [discriminate |].
  injection H as <-. apply Z.eqb_neq in Hc.
  exists mem'. split; [reflexivity |]. split; [exact Hlen |]. split; [exact Hc |].
  reflexivity.
Qed.

Lemma wrap_T_small (z : Z) : (- 2 ^ 31 <= z < 2 ^ 31)%Z -> wrap_T z = z.
Proof.
  intros H. unfold wrap_T. change T_MIN with (- 2 ^ 31)%Z.
  change (2 ^ (sizeof_T * 8))%Z with (2 ^ 32)%Z.
  rewrite Z.mod_small; lia.
Qed.

Lemma nCurrentBlock_small nm :
  (0 <= m_nBlockCurrent nm * m_nBlockSamples nm < 2 ^ 31)%Z ->
  nCurrentBlock nm = (m_nBlockCurrent nm * m_nBlockSamples nm)%Z.
Proof.
  intros H. unfold nCurrentBlock. rewrite u32_small by lia.
  apply wrap_T_small. lia.
Qed.


(** The loop body returns when the memory holds the whole pool. *)
Lemma loop_body_total g nm :
  (0 <= m_nBlockCurrent nm < m_nBlockCount nm)%Z ->
  (0 <= m_nBlockSamples nm)%Z ->
  (m_nBlockCount nm * m_nBlockSamples nm <= 2 ^ 31)%Z ->
  length (m_pBlockMemory nm) = Z.to_nat (m_nBlockCount nm * m_nBlockSamples nm) ->
  is_Some (loop_body g nm).
Proof.
  intros Hc Hs Hm Hl. unfold loop_body, fill_block.
  set (nm1 := with_BlockFree (u32 (m_nBlockFree nm - 1)) nm).
  assert (Hle : (m_nBlockCurrent nm * m_nBlockSamples nm + m_nBlockSamples nm
                 <= m_nBlockCount nm * m_nBlockSamples nm)%Z) by nia.
  assert (Hcb : nCurrentBlock nm1 = (m_nBlockCurrent nm * m_nBlockSamples nm)%Z).
  { apply (nCurrentBlock_small nm1). simpl. nia. }
  destruct (fill_from_total g (Z.to_nat (m_nBlockSamples nm)) 0 nm1) as [nm2 Hf].
  - rewrite Hcb. nia.
  - rewrite Hcb. lia.
  - rewrite Hcb. simpl. rewrite Hl. lia.
  - simpl. rewrite Hf. apply fill_from_fields in Hf. destruct Hf as (mem' & -> & _).
    unfold rotate. simpl. destruct (Z.eqb_spec (m_nBlockCount nm) 0); [lia |].
    eexists; reflexivity.
Qed.

End LoopBody.

(* ------------------------------------------------------------------ *)
(** ** The sample that reaches the block *)

Section Samples.
Import NoiseMaker.
Local Open Scope R_scope.

Lemma sample_of_callback (am : AudioManager) (fs : list R) (t : R) :
  fs ≡ₚ Spec.frequencies am ->
  to_T (clip (StaticNoiseCallback (Some am) t) 1.0 * dMaxSample) =
  Spec.sample (m_currentWaveType am) fs t.
Proof.
  intros Hp. rewrite clip_scale_cast. unfold Spec.sample.
  now rewrite (StaticNoiseCallback_Rsum am fs t Hp).
Qed.

Lemma sample_silence (type : WaveType) (t : R) : Spec.sample type [] t = 0%Z.
Proof.
  unfold Spec.sample. simpl. rewrite Rmult_0_r. apply quantize_0.
Qed.


End Samples.

Section SamplesWitness.
Import NoiseMaker.
Local Open Scope R_scope.



End SamplesWitness.

(* ------------------------------------------------------------------ *)
(** ** Runs of the engine *)

Section Runs.
Import NoiseMaker.
Context {G : Type}.
Implicit Types (s : System G) (e : event G) (evs : list (event G)).

Lemma run_app evs1 evs2 s :
  run (evs1 ++ evs2) s =
  match run evs1 s with Some s' => run evs2 s' | None => None end.
Proof.
  revert s. induction evs1 as [| e evs1 IH]; intros s; simpl; [reflexivity |].
  destruct (step e s); [apply IH | reflexivity].
Qed.

(** A property kept by every step holds along every run. *)
Lemma run_invariant (I : System G -> Prop) :
  (forall e s s', I s -> step e s = Some s' -> I s') ->
  forall evs s s', I s -> run evs s = Some s' -> I s'.
Proof.
  intros Hstep. induction evs as [| e evs IH]; intros s s' Hi Hr; simpl in Hr.
  - now injection Hr as <-.
  - destruct (step e s) as [s1|] eqn:He; [| discriminate].
    eapply IH; [| exact Hr]. eapply Hstep; eauto.
Qed.

(** The shape of the state after the thread has run the loop body. *)
Lemma produce_Some (g : nat -> G) s s' :
  produce g s = Some s' ->
  exists nm',
    loop_body g (nm s) = Some nm' /\
    s' = mkSystem nm' AtWhile (hwDevice s) (start_notify s)
           (if hwDevice s then in_flight s ++ [m_nBlockCurrent (nm s)] else in_flight s)
           (generated s ++ [m_nBlockCurrent (nm s)]) (completed s).
Proof.
  unfold produce. destruct (loop_body g (nm s)) as [nm'|]; [| discriminate].
  intros [= <-]. exists nm'. split; [reflexivity |].
  unfold waveOutWrite. simpl.
  destruct (hwDevice s) eqn:Hd; simpl; unfold with_pc; simpl; now rewrite ?Hd.
Qed.

End Runs.

(** Case analysis of one step: every way in which [step e s] can be
    [Some s'], with [s'] written out. *)
Ltac thread_cases H s :=
  unfold NoiseMaker.MainThread in H;
  destruct (NoiseMaker.pc s) eqn:?;
  [ | destruct (NoiseMaker.m_bReady (NoiseMaker.nm s)) eqn:?;
      [ destruct (NoiseMaker.m_nBlockFree (NoiseMaker.nm s) =? 0)%Z eqn:? | ]
    | | | | ];
  simpl in H; try discriminate H;
  try (apply produce_Some in H; destruct H as (? & ? & H));
  first [injection H as <- | match type of H with ?x = _ => subst x end].

Ltac callback_cases H s uMsg :=
  unfold NoiseMaker.waveOutProc in H;
  destruct (uMsg =? NoiseMaker.WOM_DONE)%Z eqn:?;
  [ destruct (NoiseMaker.in_flight s) eqn:?; [discriminate H |] | ];
  simpl in H; unfold NoiseMaker.notify_one in H; simpl in H;
  try (destruct (NoiseMaker.pc s) eqn:?; simpl in H);
  injection H as <-.

Ltac step_cases H :=
  let g := fresh "g" in
  let uMsg := fresh "uMsg" in
  let func := fresh "func" in
  match type of H with
  | NoiseMaker.step ?e ?s = Some _ =>
      destruct e as [g | uMsg | | | | func]; simpl in H;
      [ thread_cases H s
      | callback_cases H s uMsg
      | destruct (NoiseMaker.start_notify s) eqn:?; [| discriminate H];
        unfold NoiseMaker.notify_one in H; simpl in H;
        destruct (NoiseMaker.pc s) eqn:?; simpl in H; injection H as <-
      | destruct (NoiseMaker.pc s) eqn:?; try discriminate H; injection H as <-
      | injection H as <-
      | injection H as <- ];
      simpl
  end.

(* ------------------------------------------------------------------ *)
(** ** Block rotation *)

Section Rotation.
Import NoiseMaker Invariants.
Context {G : Type}.
Implicit Types (s : System G) (e : event G) (evs : list (event G)).

Lemma round_robin_snoc (N : Z) (log : list Z) :
  Spec.round_robin N log ->
  Spec.round_robin N (log ++ [(Z.of_nat (length log) mod N)%Z]).
Proof.
  intros H k b Hk. destruct (decide (k < length log)%nat) as [Hlt|Hge].
  - rewrite lookup_app_l in Hk by exact Hlt. now apply H.
  - rewrite lookup_app_r in Hk by lia.
    destruct (k - length log)%nat as [| d] eqn:Hd; simpl in Hk; [| discriminate].
    injection Hk as <-. replace k with (length log) by lia. reflexivity.
Qed.

Lemma next_index (N len : Z) :
  (0 < N < 2 ^ 32)%Z -> (0 <= len)%Z ->
  (u32 (len mod N + 1) mod N = (len + 1) mod N)%Z.
Proof.
  intros HN Hl. pose proof (Z.mod_pos_bound len N ltac:(lia)) as Hb.
  rewrite u32_small by lia. now rewrite Z.add_mod_idemp_l by lia.
Qed.

Lemma rotation_Create dev rate ch N samples :
  (0 < N)%Z -> rotation N (@Create G dev rate ch N samples).
Proof.
  intros HN. unfold rotation, Create.
  destruct dev; simpl; (split; [reflexivity |]); (split; [now rewrite Z.mod_0_l by lia |]);
    (split; [intros k b Hk; discriminate | reflexivity]).
Qed.

Lemma rotation_step (N : Z) e s s' :
  (0 < N < 2 ^ 32)%Z -> rotation N s -> step e s = Some s' -> rotation N s'.
Proof.
  intros HN (Hc & Hcur & Hrr & Hq) H. unfold rotation.
  step_cases H;
    try (match goal with Hl : loop_body _ _ = Some _ |- _ =>
           apply loop_body_fields in Hl; destruct Hl as (mem' & -> & _ & _ & _) end);
    simpl;
    first
      [ (* nothing of the ring has moved *)
        solve [repeat (split; [first [assumption | reflexivity] |]); assumption]
      | (* a block was filled and handed over *)
        solve [split; [assumption |];
               split; [rewrite Hcur, Hc, length_app, Nat2Z.inj_add; apply next_index; lia |];
               split; [rewrite Hcur; now apply round_robin_snoc |];
               destruct (hwDevice s); [rewrite app_assoc, Hq; reflexivity | assumption]]
      | (* the device reported its oldest block *)
        solve [repeat (split; [first [assumption | reflexivity] |]);
               rewrite <- Hq, <- app_assoc; reflexivity] ].
Qed.

(** C4: along every run of an engine with a pool of N >= 1 blocks, the
    k-th block filled and handed to the device is block k mod N, the
    current index is (number of blocks filled) mod N, each turn of the
    loop moves it from i to (i + 1) mod N, and the device reports the
    blocks back in the order in which they were filled. *)
Theorem block_rotation_round_robin dev rate ch N samples evs s :
  (0 < N < 2 ^ 32)%Z ->
  run evs (Create dev rate ch N samples) = Some s ->
  Spec.round_robin N (generated s) /\
  m_nBlockCurrent (nm s) = (Z.of_nat (length (generated s)) mod N)%Z /\
  (forall g s', produce g s = Some s' ->
     generated s' = generated s ++ [m_nBlockCurrent (nm s)] /\
     m_nBlockCurrent (nm s') = ((m_nBlockCurrent (nm s) + 1) mod N)%Z) /\
  completed s ++ in_flight s = (if hwDevice s then generated s else []).
Proof.
  intros HN Hr.
  assert (Hi : rotation N s).
  { eapply (run_invariant (rotation N)); [| | exact Hr].
    - intros e s0 s1. now apply rotation_step.
    - apply rotation_Create. lia. }
  destruct Hi as (Hc & Hcur & Hrr & Hq).
  split; [exact Hrr |]. split; [exact Hcur |]. split; [| exact Hq].
  intros g s' Hp. apply produce_Some in Hp. destruct Hp as (nm' & Hl & ->).
  apply loop_body_fields in Hl. destruct Hl as (mem' & -> & _ & _ & _). simpl.
  split; [reflexivity |]. rewrite Hc.
  pose proof (Z.mod_pos_bound (Z.of_nat (length (generated s))) N ltac:(lia)) as Hb.
  rewrite u32_small by lia. reflexivity.
Qed.

End Rotation.

Section RotationWitness.
Import NoiseMaker.

Lemma two_blocks_generated :
  match run Inputs.two_blocks Inputs.duo with
  | Some s => generated s = [0; 1]%Z
  | None => False
  end.
Proof. exact (@eq_refl (list Z) [0; 1]%Z). Qed.

Lemma block_rotation_round_robin_witness :
  exists s,
    run Inputs.two_blocks Inputs.duo = Some s /\
    generated s = [0; 1]%Z /\
    m_nBlockCurrent (nm s) = (Z.of_nat (length (generated s)) mod 2)%Z.
Proof.
  pose proof two_blocks_generated as Hg.
  destruct (run Inputs.two_blocks Inputs.duo) as [s|] eqn:E; [| destruct Hg].
  exists s. split; [reflexivity |]. split; [exact Hg |].
  refine (proj1 (proj2 (block_rotation_round_robin Opened 44100 1 2 2
                          Inputs.two_blocks s _ E))).
  lia.
Defined.

End RotationWitness.

(* ------------------------------------------------------------------ *)
(** ** The global clock *)

Section Clock.
Import NoiseMaker Invariants.
Context {G : Type}.
Implicit Types (s : System G) (e : event G) (evs : list (event G)).
Local Open Scope R_scope.






End Clock.

Section ClockTheorem.
Import NoiseMaker Invariants.
Context {G : Type}.
Implicit Types (s : System G) (e : event G) (evs : list (event G)).
Local Open Scope R_scope.




End ClockTheorem.

Section ClockWitness.
Import NoiseMaker.
Local Open Scope R_scope.


End ClockWitness.

(* ------------------------------------------------------------------ *)
(** ** The free count *)

Section FreeCount.
Import NoiseMaker Invariants.
Context {G : Type}.
Implicit Types (s : System G) (e : event G) (evs : list (event G)).

Lemma accounting_Create dev rate ch N samples :
  (0 <= N)%Z -> accounting N (@Create G dev rate ch N samples).
Proof.
  intros HN. unfold accounting, outstanding, Create.
  destruct dev; simpl; repeat split; try lia; discriminate.
Qed.

Lemma outstanding_nonneg s :
  completed s ++ in_flight s = (if hwDevice s then generated s else []) ->
  (Z.of_nat (length (in_flight s)) <= outstanding s)%Z.
Proof.
  intros Hq. apply (f_equal length) in Hq. rewrite length_app in Hq.
  unfold outstanding. destruct (hwDevice s); simpl in Hq; lia.
Qed.

(** Without a stray wake-up every step keeps the books. *)
Lemma accounting_step (N : Z) e s s' :
  (0 < N < 2 ^ 32)%Z -> accounting N s -> stray_wake e s = false ->
  step e s = Some s' -> accounting N s'.
Proof.
  intros HN (Hc & Hq & Hsum & H0 & Hw) Hstray H.
  pose proof (outstanding_nonneg s Hq) as Hout.
  unfold accounting. unfold stray_wake in Hstray.
  step_cases H;
    try (match goal with Hl : loop_body _ _ = Some _ |- _ =>
           apply loop_body_fields in Hl; destruct Hl as (mem' & -> & _ & _ & _) end);
    try rewrite length_cons in Hout;
    try match goal with Hf : (_ =? 0)%Z = false |- _ => apply Z.eqb_neq in Hf end;
    try match goal with Hp : pc s = _ |- _ => rewrite Hp in Hstray end;
    try match goal with Hp : start_notify s = _ |- _ => rewrite Hp in Hstray end;
    try discriminate Hstray;
    unfold outstanding in *; simpl;
    (split; [assumption |]);
    (split; [first [assumption
                   | destruct (hwDevice s); [rewrite app_assoc, Hq; reflexivity | assumption]
                   | rewrite <- Hq, <- app_assoc; reflexivity] |]);
    rewrite ?length_app; simpl (length [_]);
    try (assert (1 <= m_nBlockFree (nm s))%Z by (first [apply Hw; reflexivity | lia]));
    rewrite ?u32_small by lia;
    (split; [lia |]); (split; [lia |]);
    intros Hp; first [discriminate Hp | lia | apply Hw; congruence].
Qed.

(** The free count stays within the pool as long as the thread is woken
    by completed blocks only. *)
Lemma free_count_within_pool dev rate ch N samples evs s :
  (0 < N < 2 ^ 32)%Z ->
  no_stray_wake evs (Create dev rate ch N samples) = true ->
  run evs (Create dev rate ch N samples) = Some s ->
  (0 <= m_nBlockFree (nm s) <= N)%Z /\
  (m_nBlockFree (nm s) + outstanding s = N)%Z.
Proof.
  intros HN.
  assert (Hgen : forall evs s0 s1, accounting N s0 -> no_stray_wake evs s0 = true ->
                   run evs s0 = Some s1 -> accounting N s1).
  { clear evs s. induction evs as [| e evs IH]; intros s0 s1 Ha Hn Hr; simpl in *.
    - now injection Hr as <-.
    - apply andb_prop in Hn. destruct Hn as [Hs Hn]. apply negb_true_iff in Hs.
      destruct (step e s0) as [s2|] eqn:He; [| discriminate].
      eapply IH; [| exact Hn | exact Hr]. eapply accounting_step; eauto. }
  intros Hn Hr.
  destruct (Hgen evs _ s (accounting_Create dev rate ch N samples ltac:(lia)) Hn Hr)
    as (Hc & Hq & Hsum & H0 & _).
  pose proof (outstanding_nonneg s Hq). split; [lia | exact Hsum].
Qed.

End FreeCount.

Section StrayWake.
Import NoiseMaker Invariants.

(** C5, the run on which the code leaves the claim: a pool of one block.
    The thread fills block 0 and hands it over (free count 1 -> 0), finds
    no free block and waits; the [notify_one] of [Create] arrives only
    then and ends the wait although no block has come back; the thread
    does not look at the free count again, decrements it from 0 to
    2^32 - 1 (above the pool size 1), and fills and hands over block 0 a
    second time while the device still holds it. *)
Theorem free_count_wraps_on_late_start_notify :
  match run Inputs.late_start_notify Inputs.tiny with
  | Some s =>
      m_nBlockCount (nm s) = 1%Z /\
      m_nBlockFree (nm s) = 4294967295%Z /\
      generated s = [0; 0]%Z /\
      completed s = [] /\
      in_flight s = [0; 0]%Z
  | None => False
  end.
Proof.
  exact (conj (@eq_refl Z 1%Z)
          (conj (@eq_refl Z 4294967295%Z)
             (conj (@eq_refl (list Z) [0; 0]%Z)
                (conj (@eq_refl (list Z) []) (@eq_refl (list Z) [0; 0]%Z))))).
Qed.

(** The same run has a stray wake-up, so it does not contradict
    [free_count_within_pool]. *)
Lemma late_start_notify_is_stray :
  no_stray_wake Inputs.late_start_notify Inputs.tiny = false.
Proof. exact (@eq_refl bool false). Qed.

End StrayWake.

(* ------------------------------------------------------------------ *)
(** ** Shutdown *)

Section Shutdown.
Import NoiseMaker Invariants.
Context {G : Type}.
Implicit Types (s : System G) (e : event G) (evs : list (event G)).

(** A thread inside [wait] stays there under every event that is not a
    wake-up; [Stop] is not one. *)
Lemma waiting_thread_stays (evs : list (event G)) s s' :
  pc s = InWait ->
  Forall (fun e => wakes e = false) evs ->
  run evs s = Some s' ->
  pc s' = InWait /\ in_flight s' = in_flight s /\ forall g, MainThread g s' = None.
Proof.
  intros Hpc Hw. revert s Hpc. induction Hw as [| e evs He _ IH]; intros s Hpc Hr.
  - simpl in Hr. injection Hr as <-. repeat split; try assumption.
    intros g. unfold MainThread. now rewrite Hpc.
  - simpl in Hr. destruct (step e s) as [s1|] eqn:Hs; [| discriminate].
    assert (H1 : pc s1 = InWait /\ in_flight s1 = in_flight s).
    { destruct e as [g | uMsg | | | | func]; simpl in He, Hs; try discriminate He.
      - unfold MainThread in Hs. rewrite Hpc in Hs. discriminate.
      - rewrite He in Hs. unfold waveOutProc in Hs. rewrite He in Hs. simpl in Hs.
        injection Hs as <-. now split.
      - injection Hs as <-. now split.
      - injection Hs as <-. now split. }
    destruct H1 as [Hp1 Hf1]. destruct (IH s1 Hp1 Hr) as (Ha & Hb & Hc).
    repeat split; [exact Ha | congruence | exact Hc].
Qed.

Lemma Stop_keeps_thread_waiting s :
  pc s = InWait ->
  pc (Stop s) = InWait /\ m_bReady (nm (Stop s)) = false /\
  forall g, MainThread g (Stop s) = None.
Proof.
  intros Hpc. repeat split; [exact Hpc |].
  intros g. unfold MainThread, Stop. simpl. now rewrite Hpc.
Qed.

(** Without a device nothing is ever in flight, and no completion can
    arrive. *)
Lemma no_device_no_completion rate ch N samples evs s :
  run evs (@Create G NotListed rate ch N samples) = Some s ->
  hwDevice s = false /\ in_flight s = [] /\ completed s = [] /\
  step (EvCallback WOM_DONE) s = None.
Proof.
  intros Hr.
  assert (Hi : hwDevice s = false /\ in_flight s = [] /\ completed s = []).
  { eapply (run_invariant
              (fun s => hwDevice s = false /\ in_flight s = [] /\ completed s = []));
      [| | exact Hr].
    - intros e s0 s1 (Hd & Hf & Hc) H.
      step_cases H;
        try (match goal with Hl : loop_body _ _ = Some _ |- _ =>
               apply loop_body_fields in Hl; destruct Hl as (mem' & -> & _ & _ & _) end);
        simpl; rewrite ?Hd; try (repeat split; assumption); congruence.
    - repeat split. }
  destruct Hi as (Hd & Hf & Hc). repeat split; try assumption.
  simpl. now rewrite Hf.
Qed.

End Shutdown.

Section ShutdownRun.
Import NoiseMaker.

(** C2, the runs on which the code leaves the claim: a pool of one
    block.  The thread has filled its block, found no free one and waits.
    [Stop] clears [m_bReady] and issues no [notify_one]: the thread is
    still inside [wait] and has no step of its own, so the [join] does not
    return.
    - On an opened device only a completion from the device ends the
      wait; the thread then fills and hands over one more block before it
      looks at [m_bReady], and returns with that block in flight.
    - When the device name was not found there is no device to report a
      completion: nothing is in flight, and the thread stays in [wait]. *)
Theorem Stop_leaves_thread_blocked :
  match run Inputs.stop_while_asleep Inputs.tiny with
  | Some s =>
      pc s = InWait /\
      m_bReady (nm s) = false /\
      m_nBlockFree (nm s) = 0%Z /\
      in_flight s = [0%Z] /\
      (forall g, step (EvThread g) s = None) /\
      match run Inputs.device_releases s with
      | Some s' =>
          pc s' = Exited /\ generated s' = [0; 0]%Z /\ in_flight s' = [0%Z]
      | None => False
      end
  | None => False
  end /\
  match run Inputs.stop_while_asleep Inputs.orphan with
  | Some s =>
      pc s = InWait /\
      m_bReady (nm s) = false /\
      m_nBlockFree (nm s) = 0%Z /\
      in_flight s = [] /\
      (forall g, step (EvThread g) s = None) /\
      step (EvCallback WOM_DONE) s = None
  | None => False
  end.
Proof.
  split.
  - exact (conj (@eq_refl thread_pc InWait)
            (conj (@eq_refl bool false)
               (conj (@eq_refl Z 0%Z)
                  (conj (@eq_refl (list Z) [0%Z])
                     (conj (fun g => @eq_refl (option (System unit)) None)
                        (conj (@eq_refl thread_pc Exited)
                           (conj (@eq_refl (list Z) [0; 0]%Z)
                              (@eq_refl (list Z) [0%Z])))))))).
  - exact (conj (@eq_refl thread_pc InWait)
            (conj (@eq_refl bool false)
               (conj (@eq_refl Z 0%Z)
                  (conj (@eq_refl (list Z) [])
                     (conj (fun g => @eq_refl (option (System unit)) None)
                        (@eq_refl (option (System unit)) None)))))).
Qed.

End ShutdownRun.

(* ------------------------------------------------------------------ *)
(** ** The registry mutex *)

Section Mutex.
Import Registry Invariants.
Local Open Scope R_scope.

Lemma registry_run_invariant (I : world -> Prop) :
  (forall e w w', I w -> step e w = Some w' -> I w') ->
  forall evs w w', I w -> run evs w = Some w' -> I w'.
Proof.
  intros Hstep. induction evs as [| e evs IH]; intros w w' Hi Hr; simpl in Hr.
  - now injection Hr as <-.
  - destruct (step e w) as [w1|] eqn:He; [| discriminate].
    eapply IH; [| exact Hr]. eapply Hstep; eauto.
Qed.

Lemma mutex_discipline_boot (am : AudioManager) : mutex_discipline (boot am).
Proof.
  unfold mutex_discipline, holder, partial_sum, boot. simpl.
  repeat split. intros; discriminate.
Qed.

Lemma mutex_discipline_step e w w' :
  mutex_discipline w -> step e w = Some w' -> mutex_discipline w'.
Proof.
  intros (Hm & Hx & Hp) H. unfold mutex_discipline, holder, partial_sum in *.
  destruct e as [dTime | h | [|]]; simpl in H.
  - destruct (audio w) eqn:Ha; try discriminate. injection H as <-. simpl in *.
    split; [assumption |]. split; [reflexivity |]. intros; discriminate.
  - destruct (input w) eqn:Hi; try discriminate. injection H as <-. simpl in *.
    split; [assumption |]. split; [now rewrite andb_false_r | assumption].
  - unfold audio_step in H. destruct (audio w) as [| t | ty t | ty t pos acc] eqn:Ha;
      try discriminate; simpl in *.
    + injection H as <-. simpl.
      split; [assumption |]. split; [reflexivity |]. intros; discriminate.
    + destruct (m_notesMutex w) eqn:Hmx; [discriminate |]. injection H as <-. simpl.
      destruct (in_body (input w)) eqn:Hb; [discriminate |].
      split; [reflexivity |]. split; [reflexivity |].
      intros ty' t' pos' acc' [= <- <- <- <-]. reflexivity.
    + destruct (map_to_list (m_activeNotes (inst w)) !! pos) as [key|] eqn:Hk;
        injection H as <-; simpl.
      * split; [assumption |]. split; [assumption |].
        intros ty' t' pos' acc' [= <- <- <- <-].
        rewrite (accumulate_take_S _ _ _ _ _ _ Hk). f_equal. now apply Hp.
      * rewrite Hx. split; [reflexivity |]. split; [reflexivity |].
        intros; discriminate.
  - unfold input_step in H. destruct (input w) as [| h | h] eqn:Hi;
      try discriminate; simpl in *.
    + destruct (m_notesMutex w) eqn:Hmx; [discriminate |]. injection H as <-. simpl.
      destruct (iterating (audio w)) eqn:Hit; [discriminate |].
      split; [reflexivity |]. split; [reflexivity |].
      intros ty t pos acc Ha. rewrite Ha in Hit. discriminate.
    + injection H as <-. simpl. rewrite andb_true_r in Hx. rewrite Hx.
      split; [reflexivity |]. split; [reflexivity |].
      intros ty t pos acc Ha. rewrite Ha in Hx. discriminate.
Qed.

Lemma mutex_discipline_run am evs w :
  run evs (boot am) = Some w -> mutex_discipline w.
Proof.
  intros H. eapply (registry_run_invariant mutex_discipline); [| | exact H].
  - intros e w0 w1. apply mutex_discipline_step.
  - apply mutex_discipline_boot.
Qed.

Lemma key_up_during_sum_state :
  match run Inputs.key_up_during_sum (boot Inputs.one_note) with
  | Some w =>
      audio w = A_iter Sine 0 0 0.0 /\
      m_notesMutex w = Some Audio /\
      input w = I_lock (KeyUp VirtualKeys.Q) /\
      step (Run Input) w = None
  | None => False
  end.
Proof.
  exact (conj (@eq_refl audio_pc (A_iter Sine 0 0 0.0))
          (conj (@eq_refl (option thread) (Some Audio))
             (conj (@eq_refl input_pc (I_lock (KeyUp VirtualKeys.Q)))
                (@eq_refl (option world) None)))).
Qed.

(** C3, the run on which the claim fails: the callback has been called
    and is inside its range-for, at the first entry; it holds
    [m_notesMutex], and the handler of a key-up that arrives now cannot
    take a step. *)
Lemma summation_under_mutex_counterexample :
  ~ (forall evs w,
       run evs (boot Inputs.one_note) = Some w -> Spec.lock_free_iteration w).
Proof.
  intros H. pose proof key_up_during_sum_state as Hs.
  destruct (run Inputs.key_up_during_sum (boot Inputs.one_note)) as [w|] eqn:E;
    [| exact Hs].
  destruct Hs as (Ha & Hm & _).
  specialize (H _ _ E _ _ _ _ Ha). rewrite Hm in H. discriminate H.
Qed.

(** C3, as amended: the per-sample read of the active notes walks the
    map in place while the audio thread holds [m_notesMutex].  In every
    state of every run in which the audio thread is inside the range-for:
    it owns the mutex; no handler is inside its body, and a handler that
    has arrived cannot take a step; the running sum is the sum over the
    entries visited so far of the registry as it stands; and when the
    loop ends the value returned is the mix over that registry, which is
    therefore the registry as it stood when the mutex was taken.
    Conversely, while a handler is inside its body the audio thread
    cannot enter the range-for. *)
Theorem summation_runs_under_mutex am evs w :
  run evs (boot am) = Some w ->
  (forall type dTime pos dOutput,
     audio w = A_iter type dTime pos dOutput ->
     m_notesMutex w = Some Audio /\
     (forall h, input w <> I_body h) /\
     (forall h, input w = I_lock h -> step (Run Input) w = None) /\
     dOutput = accumulate (oscillator type) dTime
                 (take pos (map_to_list (m_activeNotes (inst w)))) 0.0 /\
     (forall w', step (Run Audio) w = Some w' -> audio w' = A_idle ->
        inst w' = inst w /\ m_notesMutex w' = None /\
        returned w' = returned w ++ [StaticNoiseCallback
                                       (Some (SetWaveType type (inst w))) dTime])) /\
  (forall h, input w = I_body h ->
     m_notesMutex w = Some Input /\
     (forall type dTime, audio w = A_lock type dTime -> step (Run Audio) w = None)).
Proof.
  intros Hr. destruct (mutex_discipline_run am evs w Hr) as (Hm & Hx & Hp).
  unfold holder in Hm. split.
  - intros ty t pos acc Ha. rewrite Ha in Hm, Hx. simpl in Hm, Hx.
    split; [exact Hm |]. split; [| split; [| split]].
    + intros h Hi. rewrite Hi in Hx. discriminate.
    + intros h Hi. simpl. unfold input_step. now rewrite Hi, Hm.
    + now apply Hp.
    + intros w' Hs Hidle. simpl in Hs. unfold audio_step in Hs. rewrite Ha in Hs.
      destruct (map_to_list (m_activeNotes (inst w)) !! pos) as [key|] eqn:Hk;
        injection Hs as <-; simpl in *; [discriminate |].
      repeat split. f_equal.
      rewrite (Hp _ _ _ _ Ha). apply lookup_ge_None in Hk.
      rewrite take_ge by exact Hk.
      unfold StaticNoiseCallback, MakeSineNoise, MakeSquareNoise. simpl.
      destruct ty; reflexivity.
  - intros h Hi. rewrite Hi in Hm, Hx. simpl in Hm, Hx.
    rewrite andb_true_r in Hx. rewrite Hx in Hm. split; [exact Hm |].
    intros ty t Ha. simpl. unfold audio_step. now rewrite Ha, Hm.
Qed.

Lemma summation_runs_under_mutex_witness :
  exists w,
    run Inputs.key_up_during_sum (boot Inputs.one_note) = Some w /\
    audio w = A_iter Sine 0 0 0.0 /\
    m_notesMutex w = Some Audio.
Proof.
  pose proof key_up_during_sum_state as Hs.
  destruct (run Inputs.key_up_during_sum (boot Inputs.one_note)) as [w|] eqn:E;
    [| destruct Hs].
  destruct Hs as (Ha & _).
  exists w. split; [reflexivity |]. split; [exact Ha |].
  exact (proj1 (proj1 (summation_runs_under_mutex Inputs.one_note
                         Inputs.key_up_during_sum w E) Sine 0 0%nat 0.0 Ha)).
Defined.

End Mutex.

(* ================================================================== *)
(** * Further properties of the code *)

(* ------------------------------------------------------------------ *)
(** ** The key handlers *)

Section Handlers.
Local Open Scope R_scope.

Lemma AudioManager_eq (a b : AudioManager) :
  m_activeNotes a = m_activeNotes b ->
  m_currentWaveType a = m_currentWaveType b -> a = b.
Proof. destruct a, b; simpl; intros -> ->; reflexivity. Qed.

Lemma HandleKeyDown_type (am : AudioManager) (k : Z) :
  m_currentWaveType (HandleKeyDown k am) = m_currentWaveType am.
Proof.
  unfold HandleKeyDown, MapNoteFrequency.
  destruct (m_activeNotes am !! k); [reflexivity |].
  destruct (noteFreq_of k); reflexivity.
Qed.

Lemma HandleKeyDown_lookup (am : AudioManager) (k j : Z) :
  m_activeNotes (HandleKeyDown k am) !! j =
  if decide (j = k) then
    match m_activeNotes am !! k with
    | Some f => Some f
    | None => noteFreq_of k
    end
  else m_activeNotes am !! j.
Proof.
  unfold HandleKeyDown, MapNoteFrequency.
  destruct (m_activeNotes am !! k) as [f|] eqn:Hk.
  - case_decide; [subst; exact Hk | reflexivity].
  - destruct (noteFreq_of k) as [f|] eqn:Hf; simpl.
    + case_decide.
      * subst. apply lookup_insert_eq.
      * now apply lookup_insert_ne.
    + case_decide; [subst; exact Hk | reflexivity].
Qed.

(** X1: what the handlers do to the registry, entry by entry.  After a
    key-down for [k] the entry of [k] is the one it had, or else the
    frequency of the table (none for an unmapped key); after a key-up it
    is gone; the entries of all other keys and the waveform selection are
    as before. *)
Theorem handlers_entrywise (am : AudioManager) (k j : Z) :
  m_activeNotes (HandleKeyDown k am) !! j =
    (if decide (j = k) then
       match m_activeNotes am !! k with
       | Some f => Some f
       | None => noteFreq_of k
       end
     else m_activeNotes am !! j) /\
  m_activeNotes (HandleKeyUp k am) !! j =
    (if decide (j = k) then None else m_activeNotes am !! j) /\
  m_currentWaveType (HandleKeyDown k am) = m_currentWaveType am /\
  m_currentWaveType (HandleKeyUp k am) = m_currentWaveType am.
Proof.
  split; [apply HandleKeyDown_lookup |]. split; [| split].
  - case_decide.
    + subst. apply HandleKeyUp_lookup.
    + apply HandleKeyUp_other. congruence.
  - apply HandleKeyDown_type.
  - reflexivity.
Qed.

(** X2: key-down is idempotent, and a repeated key-down (the auto-repeat
    of a held key) never changes the frequency a key sounds at; key-up is
    idempotent too. *)
Theorem handlers_idempotent (am : AudioManager) (k : Z) :
  HandleKeyDown k (HandleKeyDown k am) = HandleKeyDown k am /\
  HandleKeyUp k (HandleKeyUp k am) = HandleKeyUp k am /\
  (forall f, m_activeNotes am !! k = Some f -> HandleKeyDown k am = am).
Proof.
  split; [| split].
  - apply AudioManager_eq; [| now rewrite !HandleKeyDown_type].
    apply map_eq. intros j. rewrite (HandleKeyDown_lookup (HandleKeyDown k am)).
    case_decide; [| reflexivity]. subst j.
    rewrite HandleKeyDown_lookup. rewrite decide_True by reflexivity.
    destruct (m_activeNotes am !! k); [reflexivity |].
    destruct (noteFreq_of k); reflexivity.
  - apply AudioManager_eq; [| reflexivity].
    unfold HandleKeyUp. simpl. apply delete_id. apply lookup_delete_eq.
  - intros f Hk. unfold HandleKeyDown. now rewrite Hk.
Qed.

(** X3: handlers for different keys commute, whatever their kinds: the
    registry does not depend on the order in which two different keys are
    pressed or released. *)
Theorem handlers_commute (am : AudioManager) (j k : Z) :
  j <> k ->
  HandleKeyDown j (HandleKeyDown k am) = HandleKeyDown k (HandleKeyDown j am) /\
  HandleKeyDown j (HandleKeyUp k am) = HandleKeyUp k (HandleKeyDown j am) /\
  HandleKeyUp j (HandleKeyUp k am) = HandleKeyUp k (HandleKeyUp j am).
Proof.
  intros Hjk.
  assert (Hup : forall a x i, m_activeNotes (HandleKeyUp x a) !! i =
                              if decide (i = x) then None else m_activeNotes a !! i).
  { intros a x i. case_decide; [subst; apply HandleKeyUp_lookup |].
    apply HandleKeyUp_other. congruence. }
  repeat split; (apply AudioManager_eq;
    [apply map_eq; intros i
    | unfold HandleKeyUp; simpl; now rewrite ?HandleKeyDown_type]);
    rewrite ?HandleKeyDown_lookup, ?Hup, ?HandleKeyDown_lookup, ?Hup;
    repeat case_decide; subst; try congruence; reflexivity.
Qed.

Lemma handlers_commute_witness :
  HandleKeyDown VirtualKeys.Q (HandleKeyUp VirtualKeys.W Inputs.one_note) =
  HandleKeyUp VirtualKeys.W (HandleKeyDown VirtualKeys.Q Inputs.one_note).
Proof.
  refine (proj1 (proj2 (handlers_commute Inputs.one_note VirtualKeys.Q VirtualKeys.W _))).
  discriminate.
Defined.

End Handlers.

(* ------------------------------------------------------------------ *)
(** ** The registry along any sequence of key messages *)

Section Polyphony.
Local Open Scope R_scope.

Lemma table_consistent_handler (h : Registry.handler) (am : AudioManager) :
  table_consistent am -> table_consistent (Registry.handler_body h am).
Proof.
  intros Ht k f. destruct h as [w | w | ty]; simpl.
  - rewrite HandleKeyDown_lookup. case_decide.
    + subst. destruct (m_activeNotes am !! w) eqn:Hw; [| tauto].
      intros [= <-]. now apply Ht.
    + apply Ht.
  - rewrite lookup_delete. case_decide; [discriminate | apply Ht].
  - apply Ht.
Qed.

Lemma table_consistent_handle_all (hs : list Registry.handler) (am : AudioManager) :
  table_consistent am -> table_consistent (handle_all hs am).
Proof.
  revert am. induction hs as [| h hs IH]; intros am Ht; simpl; [exact Ht |].
  apply IH. now apply table_consistent_handler.
Qed.

Lemma NoDup_mapped_keys : NoDup Spec.mapped_keys.
Proof. apply (bool_decide_unpack _). vm_compute. exact I. Qed.

Lemma table_consistent_size (am : AudioManager) :
  table_consistent am -> (size (m_activeNotes am) <= 17)%nat.
Proof.
  intros Ht. rewrite <- size_dom.
  change 17%nat with (length Spec.mapped_keys).
  rewrite <- (size_list_to_set (C := gset Z) _ NoDup_mapped_keys).
  apply subseteq_size. intros k Hk.
  apply elem_of_dom in Hk. destruct Hk as [f Hf].
  apply elem_of_list_to_set. apply list_elem_of_In.
  destruct (in_dec Z.eq_dec k Spec.mapped_keys) as [Hin | Hout]; [exact Hin |].
  apply Ht in Hf. rewrite (noteFreq_of_unmapped k Hout) in Hf. discriminate.
Qed.

(** X4: whatever key and button messages arrive, in whatever order, every
    active note sits at a mapped key with the frequency of the table, at
    most 17 notes are active, and the value the callback returns has
    magnitude at most 8.5. *)
Theorem registry_bounded_by_table (hs : list Registry.handler) (t : R) :
  let am := handle_all hs AudioManager_new in
  table_consistent am /\
  (size (m_activeNotes am) <= 17)%nat /\
  Rabs (StaticNoiseCallback (Some am) t) <= 8.5.
Proof.
  cbv zeta.
  assert (Ht : table_consistent (handle_all hs AudioManager_new)).
  { apply table_consistent_handle_all. intros k f. unfold AudioManager_new. simpl.
    rewrite lookup_empty. discriminate. }
  pose proof (table_consistent_size _ Ht) as Hs.
  split; [exact Ht |]. split; [exact Hs |].
  pose proof (MakeNoise_bound (handle_all hs AudioManager_new)
                (m_currentWaveType (handle_all hs AudioManager_new)) t) as Hb.
  apply le_INR in Hs.
  replace (INR 17) with 17 in Hs by (simpl; lra).
  unfold StaticNoiseCallback.
  destruct (m_currentWaveType (handle_all hs AudioManager_new)); lra.
Qed.

Lemma noteFreq_of_In (k : Z) (f : R) :
  noteFreq_of k = Some f -> In k Spec.mapped_keys.
Proof.
  intros H. destruct (in_dec Z.eq_dec k Spec.mapped_keys) as [Hin | Hout]; [exact Hin |].
  rewrite (noteFreq_of_unmapped k Hout) in H. discriminate.
Qed.

(** X5: the key table assigns different frequencies to different keys,
    all of them between C4 (261.626 Hz) and E6 (1318.51 Hz). *)
Theorem key_table_injective (j k : Z) (f : R) :
  noteFreq_of j = Some f ->
  (261.626 <= f <= 1318.51) /\ (noteFreq_of k = Some f -> j = k).
Proof.
  intros Hj. pose proof (noteFreq_of_In j f Hj) as Inj.
  split.
  - unfold Spec.mapped_keys in Inj. simpl in Inj.
    repeat (destruct Inj as [<- | Inj];
            [injection Hj as <-;
             unfold NoteFrequencies.C4, NoteFrequencies.D4, NoteFrequencies.E4,
               NoteFrequencies.F4, NoteFrequencies.G4, NoteFrequencies.A4,
               NoteFrequencies.B4, NoteFrequencies.C5, NoteFrequencies.D5,
               NoteFrequencies.E5, NoteFrequencies.F5, NoteFrequencies.G5,
               NoteFrequencies.A5, NoteFrequencies.B5, NoteFrequencies.C6,
               NoteFrequencies.D6, NoteFrequencies.E6; lra |]).
    destruct Inj.
  - intros Hk. pose proof (noteFreq_of_In k f Hk) as Ink.
    unfold Spec.mapped_keys in Inj, Ink. simpl in Inj, Ink.
    repeat (destruct Inj as [<- | Inj]; [injection Hj as <- |]); [.. | destruct Inj];
      repeat (destruct Ink as [<- | Ink];
              [first [reflexivity
                     | exfalso; injection Hk as Hk; revert Hk;
                       unfold NoteFrequencies.C4, NoteFrequencies.D4, NoteFrequencies.E4,
                         NoteFrequencies.F4, NoteFrequencies.G4, NoteFrequencies.A4,
                         NoteFrequencies.B4, NoteFrequencies.C5, NoteFrequencies.D5,
                         NoteFrequencies.E5, NoteFrequencies.F5, NoteFrequencies.G5,
                         NoteFrequencies.A5, NoteFrequencies.B5, NoteFrequencies.C6,
                         NoteFrequencies.D6, NoteFrequencies.E6; lra] |]);
      destruct Ink.
Qed.

Lemma key_table_injective_witness :
  noteFreq_of VirtualKeys.N = Some NoteFrequencies.A4 /\
  (noteFreq_of VirtualKeys.N = Some NoteFrequencies.A4 -> VirtualKeys.N = VirtualKeys.N).
Proof.
  assert (H : noteFreq_of VirtualKeys.N = Some NoteFrequencies.A4) by reflexivity.
  split; [exact H |].
  exact (proj2 (key_table_injective VirtualKeys.N VirtualKeys.N NoteFrequencies.A4 H)).
Defined.

End Polyphony.

(* ------------------------------------------------------------------ *)
(** ** The shape of the square wave, and the clip *)

Section Waveforms.
Local Open Scope R_scope.






Lemma square_sum_lattice (t : R) (fs : list R) :
  exists z : Z,
    Spec.Rsum (map (fun f => SquareSoundMaker f t) fs) = IZR z /\
    (- Z.of_nat (length fs) <= z <= Z.of_nat (length fs))%Z /\
    Z.even (z + Z.of_nat (length fs)) = true.
Proof.
  induction fs as [| f fs (z & Hz & Hb & He)].
  - exists 0%Z. simpl. repeat split; lia.
  - change (Spec.Rsum (map (fun f0 => SquareSoundMaker f0 t) (f :: fs)))
      with (SquareSoundMaker f t + Spec.Rsum (map (fun f0 => SquareSoundMaker f0 t) fs)).
    rewrite Hz, length_cons, Nat2Z.inj_succ.
    destruct (SquareSoundMaker_values f t) as [-> | ->].
    + exists (1 + z)%Z. rewrite plus_IZR. repeat split; try lia.
      replace (1 + z + Z.succ (Z.of_nat (length fs)))%Z
        with (z + Z.of_nat (length fs) + 2)%Z by lia.
      now rewrite Z.even_add_even by (exists 1%Z; lia).
    + exists (-1 + z)%Z. rewrite plus_IZR. repeat split; try lia.
      replace (-1 + z + Z.succ (Z.of_nat (length fs)))%Z
        with (z + Z.of_nat (length fs))%Z by lia.
      exact He.
Qed.

(** X7: the square mix moves on a lattice: with k active notes
    [MakeSquareNoise] is z / 2 for an integer z between -k and k of the
    parity of k; with an odd number of notes it is never 0. *)
Theorem MakeSquareNoise_lattice (am : AudioManager) (t : R) :
  (exists z : Z,
     MakeSquareNoise am t = IZR z / 2 /\
     (- Z.of_nat (size (m_activeNotes am)) <= z <= Z.of_nat (size (m_activeNotes am)))%Z /\
     Z.even (z + Z.of_nat (size (m_activeNotes am))) = true) /\
  (Nat.odd (size (m_activeNotes am)) = true -> MakeSquareNoise am t <> 0).
Proof.
  pose proof (MakeNoise_oscillator am Square t) as Hm. simpl in Hm.
  destruct (square_sum_lattice t (Spec.frequencies am)) as (z & Hz & Hb & He).
  rewrite length_frequencies in Hb, He.
  assert (Hval : MakeSquareNoise am t = IZR z / 2).
  { rewrite Hm. change (oscillator Square) with SquareSoundMaker. rewrite Hz. lra. }
  split.
  - exists z. repeat split; try assumption; lia.
  - intros Hodd Hzero. rewrite Hval in Hzero.
    assert (Hz0 : IZR z = 0) by lra. apply eq_IZR in Hz0. subst z.
    rewrite Z.add_0_l in He.
    apply Nat.odd_spec in Hodd. destruct Hodd as [q Hq].
    apply Z.even_spec in He. destruct He as [p Hp]. lia.
Qed.

Lemma MakeSquareNoise_lattice_witness :
  Nat.odd (size (m_activeNotes Inputs.one_note)) = true /\
  MakeSquareNoise Inputs.one_note 0 <> 0.
Proof.
  assert (H : Nat.odd (size (m_activeNotes Inputs.one_note)) = true).
  { unfold Inputs.one_note. simpl. now rewrite map_size_singleton. }
  split; [exact H |].
  exact (proj2 (MakeSquareNoise_lattice Inputs.one_note 0) H).
Defined.

Lemma clip_range (x m : R) : 0 <= m -> - m <= NoiseMaker.clip x m <= m.
Proof.
  intros Hm. unfold NoiseMaker.clip, Double.fmin, Double.fmax.
  destruct (Rge_dec x 0.0);
    match goal with |- context [Rle_dec ?a ?b] => destruct (Rle_dec a b) end; lra.
Qed.

Lemma clip_id (x m : R) : - m <= x <= m -> NoiseMaker.clip x m = x.
Proof.
  intros Hx. unfold NoiseMaker.clip, Double.fmin, Double.fmax.
  destruct (Rge_dec x 0.0);
    match goal with |- context [Rle_dec ?a ?b] => destruct (Rle_dec a b) end; lra.
Qed.

Lemma clip_cases (x m : R) :
  0 <= m ->
  (x < - m /\ NoiseMaker.clip x m = - m) \/
  (- m <= x <= m /\ NoiseMaker.clip x m = x) \/
  (m < x /\ NoiseMaker.clip x m = m).
Proof.
  intros Hm. unfold NoiseMaker.clip, Double.fmin, Double.fmax.
  destruct (Rge_dec x 0.0);
    match goal with |- context [Rle_dec ?a ?b] => destruct (Rle_dec a b) end; lra.
Qed.

(** X8: for a bound m >= 0, [clip(x, m)] lies in [-m, m], returns x when
    x is already there, is idempotent, odd and monotone. *)
Theorem clip_is_symmetric_clamp (x y m : R) :
  0 <= m ->
  - m <= NoiseMaker.clip x m <= m /\
  (- m <= x <= m -> NoiseMaker.clip x m = x) /\
  NoiseMaker.clip (NoiseMaker.clip x m) m = NoiseMaker.clip x m /\
  NoiseMaker.clip (- x) m = - NoiseMaker.clip x m /\
  (x <= y -> NoiseMaker.clip x m <= NoiseMaker.clip y m).
Proof.
  intros Hm. split; [now apply clip_range |]. split; [apply clip_id |].
  split; [apply clip_id; now apply clip_range |]. split.
  - destruct (clip_cases x m Hm) as [[H1 ->] | [[H1 ->] | [H1 ->]]];
      destruct (clip_cases (- x) m Hm) as [[H2 ->] | [[H2 ->] | [H2 ->]]]; lra.
  - intros Hxy.
    destruct (clip_cases x m Hm) as [[H1 ->] | [[H1 ->] | [H1 ->]]];
      destruct (clip_cases y m Hm) as [[H2 ->] | [[H2 ->] | [H2 ->]]]; lra.
Qed.

Lemma clip_is_symmetric_clamp_witness :
  NoiseMaker.clip (NoiseMaker.clip 3 1.0) 1.0 = NoiseMaker.clip 3 1.0.
Proof.
  refine (proj1 (proj2 (proj2 (clip_is_symmetric_clamp 3 3 1.0 _)))). lra.
Defined.

End Waveforms.

(* ------------------------------------------------------------------ *)
(** ** What a turn of the loop writes *)

Section Writes.
Import NoiseMaker Invariants2.
Context {G : Type}.
Implicit Types (nm : NoiseMaker G) (s : System G) (g : nat -> G).
Local Open Scope R_scope.

Lemma quantize_range (c : R) :
  -1 <= c <= 1 -> (- (2 ^ 31 - 1) <= Spec.quantize c <= 2 ^ 31 - 1)%Z.
Proof.
  intros Hc. unfold Spec.quantize.
  assert (Hm : 0 <= IZR (2 ^ 31 - 1)) by (apply IZR_le; lia).
  destruct (trunc_bounds (c * IZR (2 ^ 31 - 1))) as [Hp Hn].
  destruct (Rle_dec 0 c) as [H0 | H0].
  - assert (Hx : 0 <= c * IZR (2 ^ 31 - 1)) by (apply Rmult_le_pos; lra).
    specialize (Hp Hx). split; apply le_IZR.
    + apply Rle_trans with 0; [| tauto]. apply IZR_le. lia.
    + apply Rle_trans with (c * IZR (2 ^ 31 - 1)); [tauto |].
      generalize dependent (IZR (2 ^ 31 - 1)). intros; nra.
  - assert (Hx : c * IZR (2 ^ 31 - 1) <= 0).
    { generalize dependent (IZR (2 ^ 31 - 1)). intros; nra. }
    specialize (Hn Hx). split; apply le_IZR.
    + apply Rle_trans with (c * IZR (2 ^ 31 - 1)); [| tauto].
      rewrite opp_IZR.
      generalize dependent (IZR (2 ^ 31 - 1)). intros; nra.
    + apply Rle_trans with 0; [tauto |]. apply IZR_le. lia.
Qed.

Lemma nNewSample_range (x : G) nm : (- T_MAX <= nNewSample x nm <= T_MAX)%Z.
Proof.
  change T_MAX with (2 ^ 31 - 1)%Z. unfold nNewSample.
  destruct (m_userFunction nm); rewrite clip_scale_cast;
    apply quantize_range; apply clamp_range.
Qed.

Lemma nNewSample_default (x : G) nm :
  m_userFunction nm = None -> nNewSample x nm = 0%Z.
Proof.
  intros H. unfold nNewSample, UserProcess. rewrite H, clip_scale_cast.
  replace 0.0 with 0 by lra. apply quantize_0.
Qed.

(** A property of every sample the loop may compute, and of the memory
    before, holds of the memory after. *)
Lemma fill_from_Forall (P : Z -> Prop) g (k n : nat) nm nm' :
  (forall x nm0, m_userFunction nm0 = m_userFunction nm -> P (nNewSample x nm0)) ->
  Forall P (m_pBlockMemory nm) ->
  fill_from g n k nm = Some nm' ->
  Forall P (m_pBlockMemory nm').
Proof.
  revert n nm nm'. induction k as [| k IH]; intros n nm nm' Hs Hm Hf; simpl in Hf.
  - now injection Hf as <-.
  - destruct (sample_step (g n) n nm) as [nm1|] eqn:Hst; [| discriminate].
    apply sample_step_Some in Hst. cbv zeta in Hst. destruct Hst as [Hlt ->].
    eapply IH; [| | exact Hf]; simpl.
    + exact Hs.
    + apply Forall_insert; [exact Hm |]. now apply Hs.
Qed.

Lemma loop_body_Forall (P : Z -> Prop) g nm nm' :
  (forall x nm0, m_userFunction nm0 = m_userFunction nm -> P (nNewSample x nm0)) ->
  Forall P (m_pBlockMemory nm) ->
  loop_body g nm = Some nm' ->
  Forall P (m_pBlockMemory nm').
Proof.
  intros Hs Hm Hl. apply loop_body_fields in Hl.
  destruct Hl as (mem' & -> & _ & _ & Hf). simpl.
  unfold fill_block in Hf.
  apply (fill_from_Forall P) in Hf; [exact Hf | exact Hs | exact Hm].
Qed.

(** X9: one turn of the loop writes only inside the current block: every
    cell of the memory outside it keeps its value, and the memory keeps
    its length. *)
Theorem loop_body_writes_current_block g nm nm' (i : nat) :
  (0 <= m_nBlockCurrent nm * m_nBlockSamples nm)%Z ->
  (m_nBlockCurrent nm * m_nBlockSamples nm + m_nBlockSamples nm <= 2 ^ 31)%Z ->
  loop_body g nm = Some nm' ->
  length (m_pBlockMemory nm') = length (m_pBlockMemory nm) /\
  ((i < Z.to_nat (m_nBlockCurrent nm * m_nBlockSamples nm))%nat \/
   (Z.to_nat (m_nBlockCurrent nm * m_nBlockSamples nm) + Z.to_nat (m_nBlockSamples nm)
    <= i)%nat ->
   m_pBlockMemory nm' !! i = m_pBlockMemory nm !! i).
Proof.
  intros H0 H1 Hl.
  apply loop_body_fields in Hl. destruct Hl as (mem' & -> & Hlen & _ & Hf).
  simpl. split; [exact Hlen |].
  unfold fill_block in Hf.
  set (nm1 := with_BlockFree (u32 (m_nBlockFree nm - 1)) nm) in *.
  destruct (Z_le_gt_dec (m_nBlockSamples nm) 0) as [Hs | Hs].
  - change (m_nBlockSamples nm1) with (m_nBlockSamples nm) in Hf.
    replace (Z.to_nat (m_nBlockSamples nm)) with 0%nat in Hf by lia.
    simpl in Hf. injection Hf as Hf. intros _. now rewrite <- Hf.
  - assert (Hcb : nCurrentBlock nm1 = (m_nBlockCurrent nm * m_nBlockSamples nm)%Z).
    { apply (nCurrentBlock_small nm1). simpl. lia. }
    apply fill_from_Some in Hf.
    2: { rewrite Hcb. lia. }
    2: { rewrite Hcb. change (m_nBlockSamples nm1) with (m_nBlockSamples nm). lia. }
    cbv zeta in Hf. destruct Hf as (mem2 & Heq & _ & _ & Hout).
    assert (mem2 = mem') as -> by (injection Heq; auto).
    intros Hi. rewrite Hcb in Hout. simpl in Hout. apply Hout. lia.
Qed.

End Writes.

Section WritesWitness.
Import NoiseMaker.

Lemma loop_body_writes_current_block_witness :
  exists nm',
    loop_body Inputs.Q_held Inputs.small_engine = Some nm' /\
    m_pBlockMemory nm' !! 5%nat = m_pBlockMemory Inputs.small_engine !! 5%nat.
Proof.
  destruct (loop_body_total Inputs.Q_held Inputs.small_engine) as [nm' H];
    [simpl; lia | simpl; lia | simpl; lia | reflexivity |].
  exists nm'. split; [exact H |].
  refine (proj2 (loop_body_writes_current_block Inputs.Q_held Inputs.small_engine nm'
                   5 _ _ H) _); simpl; lia.
Defined.

End WritesWitness.

(* ------------------------------------------------------------------ *)
(** ** The block memory along a run *)

Section MemoryRuns.
Import NoiseMaker Invariants Invariants2.
Context {G : Type}.
Implicit Types (s : System G) (e : event G) (evs : list (event G)).

(** A property kept by the steps of a class of events holds along every
    run made of such events. *)
Lemma run_invariant_on (ok : event G -> bool) (I : System G -> Prop) :
  (forall e s s', ok e = true -> I s -> step e s = Some s' -> I s') ->
  forall evs s s', forallb ok evs = true -> I s -> run evs s = Some s' -> I s'.
Proof.
  intros Hstep. induction evs as [| e evs IH]; intros s s' Hok Hi Hr; simpl in *.
  - now injection Hr as <-.
  - apply andb_prop in Hok. destruct Hok as [He Hok].
    destruct (step e s) as [s1|] eqn:Hs; [| discriminate].
    eapply IH; [exact Hok | | exact Hr]. eapply Hstep; eauto.
Qed.

Lemma Forall_replicate_0 (P : Z -> Prop) (n : nat) : P 0%Z -> Forall P (replicate n 0%Z).
Proof. intros H. apply Forall_replicate. exact H. Qed.

Lemma samples_in_range_step e s s' :
  samples_in_range s -> step e s = Some s' -> samples_in_range s'.
Proof.
  intros Hi H. unfold samples_in_range in *.
  step_cases H; try exact Hi;
    match goal with Hl : loop_body _ _ = Some _ |- _ =>
      apply (loop_body_Forall _ _ _ _ (fun x nm0 _ => nNewSample_range x nm0) Hi Hl) end.
Qed.

(** X10: at every moment of every run, every sample in the block memory
    lies between -(2^31 - 1) and 2^31 - 1, whatever the callback returns:
    the most negative value of the sample type is never written. *)
Theorem samples_stay_in_range dev nSampleRate nChannels nBlocks nBlockSamples evs s :
  run evs (@Create G dev nSampleRate nChannels nBlocks nBlockSamples) = Some s ->
  Forall (fun v => (- (2 ^ 31 - 1) <= v <= 2 ^ 31 - 1)%Z) (m_pBlockMemory (nm s)).
Proof.
  intros Hr. change (samples_in_range s).
  eapply (run_invariant samples_in_range); [| | exact Hr].
  - intros e s0 s1. apply samples_in_range_step.
  - unfold samples_in_range, Create. destruct dev; simpl;
      try apply Forall_nil_2; apply Forall_replicate_0;
      change T_MAX with (2 ^ 31 - 1)%Z; lia.
Qed.

Lemma silent_step e s s' :
  negb (sets_callback e) = true ->
  silent_so_far s -> step e s = Some s' -> silent_so_far s'.
Proof.
  intros He [Hu Hm] H. unfold silent_so_far in *.
  step_cases H; try discriminate He; try (split; assumption);
    match goal with Hl : loop_body _ _ = Some _ |- _ =>
      pose proof (loop_body_Forall (fun v => v = 0%Z) _ _ _
                    (fun x nm0 Hn => nNewSample_default x nm0 (eq_trans Hn Hu)) Hm Hl) as Hz;
      apply loop_body_fields in Hl; destruct Hl as (mem' & -> & _ & _ & _) end;
    simpl in *; split; assumption.
Qed.

(** X11: until [SetUserFunction] is called the engine plays silence:
    along a run without that call every sample in the block memory is 0. *)
Theorem silence_until_callback_set
    dev nSampleRate nChannels nBlocks nBlockSamples evs s :
  forallb (fun e => negb (sets_callback e)) evs = true ->
  run evs (@Create G dev nSampleRate nChannels nBlocks nBlockSamples) = Some s ->
  m_userFunction (nm s) = None /\
  Forall (fun v => v = 0%Z) (m_pBlockMemory (nm s)).
Proof.
  intros Hok Hr. change (silent_so_far s).
  eapply (run_invariant_on (fun e => negb (sets_callback e)) silent_so_far);
    [| exact Hok | | exact Hr].
  - intros e s0 s1. apply silent_step.
  - unfold silent_so_far, Create. destruct dev; simpl; split; try reflexivity;
      try apply Forall_nil_2; now apply Forall_replicate_0.
Qed.

End MemoryRuns.

Section MemoryRunsWitness.
Import NoiseMaker Invariants2.

Lemma samples_stay_in_range_witness :
  exists s,
    run Inputs.two_blocks Inputs.duo = Some s /\
    Forall (fun v => (- (2 ^ 31 - 1) <= v <= 2 ^ 31 - 1)%Z) (m_pBlockMemory (nm s)).
Proof.
  pose proof two_blocks_generated as Hg.
  destruct (run Inputs.two_blocks Inputs.duo) as [s|] eqn:E; [| destruct Hg].
  exists s. split; [reflexivity |].
  exact (samples_stay_in_range Opened 44100 1 2 2 Inputs.two_blocks s E).
Defined.

Lemma silence_until_callback_set_witness :
  exists s,
    run Inputs.two_blocks Inputs.duo = Some s /\
    Forall (fun v => v = 0%Z) (m_pBlockMemory (nm s)).
Proof.
  pose proof two_blocks_generated as Hg.
  destruct (run Inputs.two_blocks Inputs.duo) as [s|] eqn:E; [| destruct Hg].
  exists s. split; [reflexivity |].
  exact (proj2 (silence_until_callback_set Opened 44100 1 2 2 Inputs.two_blocks s
                  (@eq_refl bool true) E)).
Defined.

End MemoryRunsWitness.

(* ------------------------------------------------------------------ *)
(** ** The thread never leaves the memory *)

Section Safety.
Import NoiseMaker Invariants Invariants2.
Context {G : Type}.
Implicit Types (s : System G) (e : event G) (evs : list (event G)).

Lemma well_formed_Create dev rate ch N S :
  (0 < N)%Z -> (0 <= S)%Z -> (N * S <= 2 ^ 31)%Z ->
  well_formed N S (@Create G dev rate ch N S).
Proof.
  intros HN HS Hm. unfold well_formed, Create.
  destruct dev; simpl; repeat split; try lia; try (intros H; now destruct H);
    intros _; rewrite length_replicate, u32_small by nia; reflexivity.
Qed.

Lemma well_formed_step (N S : Z) e s s' :
  (0 < N < 2 ^ 32)%Z ->
  well_formed N S s -> step e s = Some s' -> well_formed N S s'.
Proof.
  intros HN (Hc & Hs & Hm & Hcur) H. unfold well_formed.
  step_cases H;
    try (match goal with Hl : loop_body _ _ = Some _ |- _ =>
           apply loop_body_fields in Hl; destruct Hl as (mem' & -> & Hlen & Hne & _) end);
    simpl;
    (split; [assumption |]); (split; [assumption |]);
    (split;
     [first [assumption
            | intros Hp; first [now destruct Hp
                               | rewrite ?Hlen; apply Hm; congruence]] |]);
    first [assumption
          | rewrite Hc; rewrite u32_small by lia; apply Z.mod_pos_bound; lia].
Qed.

Lemma well_formed_run dev rate ch N S evs s :
  (0 < N < 2 ^ 32)%Z -> (0 <= S)%Z -> (N * S <= 2 ^ 31)%Z ->
  run evs (@Create G dev rate ch N S) = Some s -> well_formed N S s.
Proof.
  intros HN HS Hm Hr.
  eapply (run_invariant (well_formed N S)); [| | exact Hr].
  - intros e s0 s1. now apply well_formed_step.
  - apply well_formed_Create; lia.
Qed.

End Safety.

Section SafetyTheorem.
Import NoiseMaker Invariants Invariants2.
Context {G : Type}.
Implicit Types (s : System G) (e : event G) (evs : list (event G)).

Lemma produce_defined (N S : Z) (g : nat -> G) s :
  (0 <= S)%Z -> (N * S <= 2 ^ 31)%Z -> well_formed N S s -> pc s <> Exited ->
  is_Some (produce g s).
Proof.
  intros HS Hm (Hc & Hs & Hlen & Hcur) Hpc. unfold produce.
  destruct (loop_body_total g (nm s)) as [nm' H].
  - now rewrite Hc.
  - now rewrite Hs.
  - now rewrite Hc, Hs.
  - rewrite Hc, Hs. now apply Hlen.
  - rewrite H. eexists; reflexivity.
Qed.

(** X12: in an engine whose pool fits the index arithmetic (1 <= nBlocks,
    nBlocks * nBlockSamples <= 2^31) the thread never stores outside the
    block memory and never divides by zero: in every state of every run
    its next step is defined, unless it is waiting or has returned. *)
Theorem thread_step_defined dev nSampleRate nChannels nBlocks nBlockSamples evs s g :
  (0 < nBlocks < 2 ^ 32)%Z -> (0 <= nBlockSamples)%Z ->
  (nBlocks * nBlockSamples <= 2 ^ 31)%Z ->
  run evs (@Create G dev nSampleRate nChannels nBlocks nBlockSamples) = Some s ->
  (MainThread g s = None <-> pc s = InWait \/ pc s = Exited) /\
  (0 <= m_nBlockCurrent (nm s) < nBlocks)%Z /\
  (pc s <> Exited ->
   length (m_pBlockMemory (nm s)) = Z.to_nat (nBlocks * nBlockSamples)).
Proof.
  intros HN HS Hm Hr.
  pose proof (well_formed_run _ _ _ _ _ _ _ HN HS Hm Hr) as Hw.
  split.
  - unfold MainThread. destruct (pc s) eqn:Hpc.
    + split; [discriminate | intros [H | H]; discriminate].
    + destruct (m_bReady (nm s)).
      * destruct (m_nBlockFree (nm s) =? 0)%Z.
        -- split; [discriminate | intros [H | H]; discriminate].
        -- destruct (produce_defined nBlocks nBlockSamples g s HS Hm Hw) as [s' Hs'];
             [congruence |]. rewrite Hs'.
           split; [discriminate | intros [H | H]; discriminate].
      * split; [discriminate | intros [H | H]; discriminate].
    + split; [discriminate | intros [H | H]; discriminate].
    + split; [intros _; now left | reflexivity].
    + destruct (produce_defined nBlocks nBlockSamples g s HS Hm Hw) as [s' Hs'];
        [congruence |]. rewrite Hs'.
      split; [discriminate | intros [H | H]; discriminate].
    + split; [intros _; now right | reflexivity].
  - destruct Hw as (_ & _ & Hlen & Hcur). split; assumption.
Qed.

End SafetyTheorem.

Section SafetyWitness.
Import NoiseMaker.

Lemma thread_step_defined_witness :
  exists s,
    run Inputs.two_blocks Inputs.duo = Some s /\
    (MainThread Inputs.nothing s = None <-> pc s = InWait \/ pc s = Exited).
Proof.
  pose proof two_blocks_generated as Hg.
  destruct (run Inputs.two_blocks Inputs.duo) as [s|] eqn:E; [| destruct Hg].
  exists s. split; [reflexivity |].
  refine (proj1 (thread_step_defined Opened 44100 1 2 2 Inputs.two_blocks s
                   Inputs.nothing _ _ _ E)); lia.
Defined.

End SafetyWitness.

(* ------------------------------------------------------------------ *)
(** ** Blocks in flight *)

Section InFlight.
Import NoiseMaker Invariants Invariants2.
Context {G : Type}.
Implicit Types (s : System G) (e : event G) (evs : list (event G)).

Lemma accounting_run dev rate ch N samples evs s :
  (0 < N < 2 ^ 32)%Z ->
  no_stray_wake evs (Create dev rate ch N samples) = true ->
  run evs (@Create G dev rate ch N samples) = Some s ->
  accounting N s.
Proof.
  intros HN.
  assert (Hgen : forall evs s0 s1, accounting N s0 -> no_stray_wake evs s0 = true ->
                   run evs s0 = Some s1 -> accounting N s1).
  { clear evs s. induction evs as [| e evs IH]; intros s0 s1 Ha Hn Hr; simpl in *.
    - now injection Hr as <-.
    - apply andb_prop in Hn. destruct Hn as [Hs Hn]. apply negb_true_iff in Hs.
      destruct (step e s0) as [s2|] eqn:He; [| discriminate].
      eapply IH; [| exact Hn | exact Hr]. eapply accounting_step; eauto. }
  intros Hn Hr.
  exact (Hgen evs _ s (accounting_Create dev rate ch N samples ltac:(lia)) Hn Hr).
Qed.





(** A sleeping thread with nothing in flight can only be woken by a stray
    wake-up. *)
Lemma asleep_with_nothing_in_flight evs s s' :
  pc s = InWait -> in_flight s = [] ->
  forallb (fun e => negb (stray e)) evs = true ->
  run evs s = Some s' ->
  pc s' = InWait /\ in_flight s' = [] /\
  m_nBlockFree (nm s') = m_nBlockFree (nm s) /\ generated s' = generated s.
Proof.
  revert s. induction evs as [| e evs IH]; intros s Hpc Hf Hok Hr; simpl in *.
  - injection Hr as <-. repeat split; assumption.
  - apply andb_prop in Hok. destruct Hok as [He Hok].
    destruct (step e s) as [s1|] eqn:Hs; [| discriminate].
    assert (H1 : pc s1 = InWait /\ in_flight s1 = [] /\
                 m_nBlockFree (nm s1) = m_nBlockFree (nm s) /\
                 generated s1 = generated s).
    { destruct e as [g | uMsg | | | | func]; simpl in He, Hs; try discriminate He.
      - unfold MainThread in Hs. rewrite Hpc in Hs. discriminate.
      - destruct (uMsg =? WOM_DONE)%Z eqn:Hu.
        + rewrite Hf in Hs. discriminate.
        + unfold waveOutProc in Hs. rewrite Hu in Hs. simpl in Hs.
          injection Hs as <-. repeat split; assumption.
      - injection Hs as <-. repeat split; assumption.
      - injection Hs as <-. repeat split; assumption. }
    destruct H1 as (Hp1 & Hf1 & Hfr1 & Hg1).
    destruct (IH s1 Hp1 Hf1 Hok Hr) as (Ha & Hb & Hc & Hd).
    repeat split; congruence.
Qed.

(** X14: a lost wake-up.  The thread has read a free count of 0 and has
    not yet entered [wait]; the device completes its last block in that
    window, so the [notify_one] finds nobody waiting.  The thread then
    goes to sleep although a block is free, and since nothing is in
    flight no completion will ever come: only a stray wake-up can end the
    wait. *)
Theorem wake_up_lost_between_test_and_wait s b g :
  pc s = Checked -> in_flight s = [b] -> m_nBlockFree (nm s) = 0%Z ->
  exists s',
    run [EvCallback WOM_DONE; EvThread g] s = Some s' /\
    pc s' = InWait /\ m_nBlockFree (nm s') = 1%Z /\ in_flight s' = [] /\
    forall evs s'',
      forallb (fun e => negb (stray e)) evs = true ->
      run evs s' = Some s'' ->
      pc s'' = InWait /\ m_nBlockFree (nm s'') = 1%Z /\ generated s'' = generated s.
Proof.
  intros Hpc Hf H0.
  set (s1 := with_pc InWait
               (with_nm (with_BlockFree (u32 (m_nBlockFree (nm s) + 1)) (nm s))
                  (with_completed (completed s ++ [b]) (with_in_flight [] s)))).
  assert (Hrun : run [EvCallback WOM_DONE; EvThread g] s = Some s1).
  { simpl. rewrite Hf. unfold waveOutProc. simpl.
    unfold MainThread, notify_one. simpl. rewrite Hpc. simpl. rewrite Hpc. reflexivity. }
  assert (Hp1 : pc s1 = InWait) by reflexivity.
  assert (Hf1 : in_flight s1 = []) by reflexivity.
  assert (Hfr1 : m_nBlockFree (nm s1) = 1%Z).
  { unfold s1. simpl. now rewrite H0. }
  assert (Hg1 : generated s1 = generated s) by reflexivity.
  exists s1. split; [exact Hrun |]. split; [exact Hp1 |]. split; [exact Hfr1 |].
  split; [exact Hf1 |].
  intros evs s'' Hok Hr.
  destruct (asleep_with_nothing_in_flight evs s1 s'' Hp1 Hf1 Hok Hr) as (Ha & _ & Hc & Hd).
  repeat split; congruence.
Qed.

End InFlight.

Section InFlightWitness.
Import NoiseMaker Invariants Invariants2.




Lemma until_checked_state :
  match run Inputs2.until_checked Inputs.tiny with
  | Some s => pc s = Checked /\ in_flight s = [0%Z] /\ m_nBlockFree (nm s) = 0%Z
  | None => False
  end.
Proof.
  exact (conj (@eq_refl thread_pc Checked)
           (conj (@eq_refl (list Z) [0%Z]) (@eq_refl Z 0%Z))).
Qed.

Lemma wake_up_lost_between_test_and_wait_witness :
  exists s s',
    run Inputs2.until_checked Inputs.tiny = Some s /\
    run [EvCallback WOM_DONE; EvThread Inputs.nothing] s = Some s' /\
    pc s' = InWait /\ m_nBlockFree (nm s') = 1%Z /\ in_flight s' = [].
Proof.
  pose proof until_checked_state as Hst.
  destruct (run Inputs2.until_checked Inputs.tiny) as [s|] eqn:E; [| destruct Hst].
  destruct Hst as (Hpc & Hf & H0).
  destruct (wake_up_lost_between_test_and_wait s 0%Z Inputs.nothing Hpc Hf H0)
    as (s' & Hr & Hp & Hfr & Hfl & _).
  exists s, s'. repeat split; assumption.
Defined.



End InFlightWitness.

(* ------------------------------------------------------------------ *)
(** ** Stopping and dead engines *)

Section Stopping.
Import NoiseMaker Invariants Invariants2 Devices.
Context {G : Type}.
Implicit Types (s : System G) (e : event G) (evs : list (event G)).

(** Once the thread has returned nothing is generated any more. *)
Lemma exited_stays evs s s' :
  pc s = Exited -> run evs s = Some s' ->
  pc s' = Exited /\ generated s' = generated s /\
  m_pBlockMemory (nm s') = m_pBlockMemory (nm s).
Proof.
  revert s. induction evs as [| e evs IH]; intros s Hpc Hr; simpl in Hr.
  - injection Hr as <-. repeat split; assumption.
  - destruct (step e s) as [s1|] eqn:Hs; [| discriminate].
    assert (H1 : pc s1 = Exited /\ generated s1 = generated s /\
                 m_pBlockMemory (nm s1) = m_pBlockMemory (nm s)).
    { step_cases Hs; try congruence; repeat split; assumption. }
    destruct H1 as (Hp1 & Hg1 & Hm1).
    destruct (IH s1 Hp1 Hr) as (Ha & Hb & Hc). repeat split; congruence.
Qed.

(** X16: [Stop] takes effect at the loop test.  When the thread stands
    at the [while], clearing [m_bReady] makes its next step return
    without touching a block, and from then on no event generates a block
    or changes the memory. *)
Theorem Stop_at_loop_test s g :
  pc s = AtWhile ->
  exists s',
    run [EvStop; EvThread g] s = Some s' /\
    pc s' = Exited /\
    generated s' = generated s /\
    m_pBlockMemory (nm s') = m_pBlockMemory (nm s) /\
    forall evs s'',
      run evs s' = Some s'' ->
      pc s'' = Exited /\ generated s'' = generated s /\
      m_pBlockMemory (nm s'') = m_pBlockMemory (nm s).
Proof.
  intros Hpc. exists (with_pc Exited (Stop s)).
  split; [| split; [reflexivity | split; [reflexivity | split; [reflexivity |]]]].
  - simpl. unfold MainThread. simpl. rewrite Hpc. reflexivity.
  - intros evs s'' Hr.
    exact (exited_stays evs (with_pc Exited (Stop s)) s'' eq_refl Hr).
Qed.

(** X17: when [waveOutOpen] fails, [Create] returns false and leaves an
    engine without thread and without memory: no run ever generates a
    block, and [Destroy] changes nothing (it does not join). *)
Theorem failed_open_leaves_dead_engine nSampleRate nChannels nBlocks nBlockSamples evs s :
  run evs (@Create G OpenFailed nSampleRate nChannels nBlocks nBlockSamples) = Some s ->
  Create_returns OpenFailed = false /\
  Destroy (@Create G OpenFailed nSampleRate nChannels nBlocks nBlockSamples) =
    Create OpenFailed nSampleRate nChannels nBlocks nBlockSamples /\
  pc s = Exited /\ generated s = [] /\ m_pBlockMemory (nm s) = [] /\
  forall g, MainThread g s = None.
Proof.
  intros Hr.
  destruct (exited_stays evs
              (Create OpenFailed nSampleRate nChannels nBlocks nBlockSamples) s
              eq_refl Hr) as (Hp & Hg & Hm).
  split; [reflexivity |]. split; [reflexivity |].
  split; [exact Hp |]. split; [exact Hg |]. split; [exact Hm |].
  intros g. unfold MainThread. now rewrite Hp.
Qed.

End Stopping.

Section StoppingWitness.
Import NoiseMaker Devices.

Lemma until_loop_state :
  match run Inputs2.until_loop Inputs.tiny with
  | Some s => pc s = AtWhile
  | None => False
  end.
Proof. exact (@eq_refl thread_pc AtWhile). Qed.

Lemma Stop_at_loop_test_witness :
  exists s s',
    run Inputs2.until_loop Inputs.tiny = Some s /\
    run [EvStop; EvThread Inputs.nothing] s = Some s' /\ pc s' = Exited.
Proof.
  pose proof until_loop_state as Hst.
  destruct (run Inputs2.until_loop Inputs.tiny) as [s|] eqn:E; [| destruct Hst].
  destruct (Stop_at_loop_test s Inputs.nothing Hst) as (s' & Hr & Hp & _).
  exists s, s'. repeat split; assumption.
Defined.

Lemma failed_open_leaves_dead_engine_witness :
  pc (@Create unit OpenFailed 44100 1 8 512) = Exited /\
  m_pBlockMemory (nm (@Create unit OpenFailed 44100 1 8 512)) = [].
Proof.
  destruct (failed_open_leaves_dead_engine 44100 1 8 512 []
              (@Create unit OpenFailed 44100 1 8 512) eq_refl)
    as (_ & _ & Hp & _ & Hm & _).
  split; assumption.
Defined.

End StoppingWitness.

(* ------------------------------------------------------------------ *)
(** ** The device list and the device number *)

Section DeviceLookup.
Import NoiseMaker Invariants Invariants2 Devices.
Implicit Types (caps : list (option string)) (name : string).

Lemma GetDevices_app caps1 caps2 :
  GetDevices (caps1 ++ caps2) = GetDevices caps1 ++ GetDevices caps2.
Proof. apply omap_app. Qed.

Lemma GetDevices_length caps : length (GetDevices caps) <= length caps.
Proof.
  induction caps as [| [d|] caps IH].
  - reflexivity.
  - change (GetDevices (Some d :: caps)) with (d :: GetDevices caps). simpl. lia.
  - change (GetDevices (None :: caps)) with (GetDevices caps). simpl. lia.
Qed.

Lemma GetDevices_length_full caps :
  length (GetDevices caps) = length caps <-> Forall (fun c => c <> None) caps.
Proof.
  induction caps as [| [d|] caps IH].
  - split; [constructor | reflexivity].
  - change (GetDevices (Some d :: caps)) with (d :: GetDevices caps). simpl. split.
    + intros H. constructor; [discriminate |]. apply IH. lia.
    + intros H. inversion H; subst. f_equal. now apply IH.
  - change (GetDevices (None :: caps)) with (GetDevices caps). simpl. split.
    + intros H. pose proof (GetDevices_length caps). lia.
    + intros H. inversion H; subst. congruence.
Qed.

Lemma GetDevices_elem caps name : name ∈ GetDevices caps <-> Some name ∈ caps.
Proof.
  unfold GetDevices. rewrite list_elem_of_omap. split.
  - intros (x & Hx & ->). exact Hx.
  - intros H. now exists (Some name).
Qed.

Lemma GetDevices_empty caps : GetDevices caps = [] <-> Forall (fun c => c = None) caps.
Proof.
  induction caps as [| [d|] caps IH].
  - split; [constructor | reflexivity].
  - change (GetDevices (Some d :: caps)) with (d :: GetDevices caps). split.
    + discriminate.
    + intros H. inversion H; subst. discriminate.
  - change (GetDevices (None :: caps)) with (GetDevices caps). split.
    + intros H. constructor; [reflexivity | now apply IH].
    + intros H. inversion H; subst. now apply IH.
Qed.

Lemma nDeviceID_None caps name :
  nDeviceID (GetDevices caps) name = None <-> Some name ∉ caps.
Proof.
  unfold nDeviceID. rewrite fmap_None, list_find_None, Forall_forall.
  rewrite <- GetDevices_elem. split.
  - intros H Hin. exact (H name Hin eq_refl).
  - intros H x Hx ->. contradiction.
Qed.

(** X18: the number [Create] passes to [waveOutOpen] is the position of
    the name in the list of the devices that answered, not the number of
    the device.  For the first device [m] that reports the name, it is the
    count of the devices below [m] that answered; it is at most [m], and it
    is [m] only when every device below [m] answered. *)
Theorem device_number_counts_answers caps (waveOutOpen_ok : nat -> bool) name m :
  caps !! m = Some (Some name) ->
  (forall j, j < m -> caps !! j <> Some (Some name)) ->
  let n := length (GetDevices (take m caps)) in
  nDeviceID (GetDevices caps) name = Some n /\
  open_device caps waveOutOpen_ok name =
    (if waveOutOpen_ok n then Opened else OpenFailed) /\
  n <= m /\
  (n = m <-> forall j, j < m -> caps !! j <> Some None).
Proof.
  intros Hm Hfirst n.
  assert (Hlen : length (take m caps) = m).
  { apply lookup_lt_Some in Hm. rewrite length_take. lia. }
  assert (Hid : nDeviceID (GetDevices caps) name = Some n).
  { unfold nDeviceID.
    rewrite <- (take_drop_middle caps m (Some name) Hm).
    rewrite GetDevices_app.
    change (GetDevices (Some name :: drop (S m) caps))
      with (name :: GetDevices (drop (S m) caps)).
    rewrite list_find_app_r.
    - simpl. destruct (decide (name = name)) as [_|Hne]; [| contradiction].
      reflexivity.
    - apply list_find_None, Forall_forall. intros x Hx ->.
      apply GetDevices_elem in Hx. apply list_elem_of_lookup in Hx.
      destruct Hx as [j Hj].
      pose proof (lookup_lt_Some _ _ _ Hj) as Hlt. rewrite Hlen in Hlt.
      rewrite lookup_take_lt in Hj by exact Hlt.
      exact (Hfirst j Hlt Hj). }
  split; [exact Hid |]. split.
  { unfold open_device. now rewrite Hid. }
  split.
  { subst n. pose proof (GetDevices_length (take m caps)). lia. }
  subst n. rewrite <- Hlen at 2. rewrite GetDevices_length_full, Forall_forall.
  split.
  - intros H j Hj Hc. apply (H None); [| reflexivity].
    apply list_elem_of_lookup. exists j. now rewrite lookup_take_lt.
  - intros H c Hc ->. apply list_elem_of_lookup in Hc. destruct Hc as [j Hj].
    pose proof (lookup_lt_Some _ _ _ Hj) as Hlt. rewrite Hlen in Hlt.
    rewrite lookup_take_lt in Hj by exact Hlt. exact (H j Hlt Hj).
Qed.

(** Device 0 does not answer and does not open; device 1 is the speakers
    and opens.  [Create] asks for device 0 and fails. *)
Lemma device_number_counts_answers_witness :
  nDeviceID (GetDevices [None; Some "Speakers"%string]) "Speakers"%string = Some 0 /\
  open_device [None; Some "Speakers"%string] (fun n => Nat.eqb n 1) "Speakers"%string =
    OpenFailed.
Proof.
  destruct (device_number_counts_answers [None; Some "Speakers"%string]
              (fun n => Nat.eqb n 1) "Speakers"%string 1 eq_refl) as (H1 & H2 & _).
  - intros j Hj. assert (j = 0) as -> by lia. discriminate.
  - split; [exact H1 | exact H2].
Defined.

End DeviceLookup.

Section Unlisted.
Import NoiseMaker Invariants Invariants2 Devices.
Context {G : Type}.
Implicit Types (s : System G) (evs : list (event G)).

(** X19: a name that no device reports.  [Create] opens nothing, still
    starts the thread and returns true; the thread fills each block of the
    pool at most once into memory that no device reads, and no completion
    ever arrives to free a block. *)
Theorem unlisted_device_fills_pool_once
    caps waveOutOpen_ok name nSampleRate nChannels nBlocks nBlockSamples evs s :
  Some name ∉ caps ->
  (0 < nBlocks < 2 ^ 32)%Z ->
  no_stray_wake evs
    (Create_named caps waveOutOpen_ok name nSampleRate nChannels nBlocks nBlockSamples) = true ->
  run evs
    (@Create_named G caps waveOutOpen_ok name nSampleRate nChannels nBlocks nBlockSamples)
    = Some s ->
  Create_returns (open_device caps waveOutOpen_ok name) = true /\
  hwDevice s = false /\ in_flight s = [] /\
  step (EvCallback WOM_DONE) s = None /\
  (Z.of_nat (length (generated s)) <= nBlocks)%Z /\
  m_nBlockFree (nm s) = (nBlocks - Z.of_nat (length (generated s)))%Z.
Proof.
  intros Hname HN Hns Hr.
  assert (Hdev : open_device caps waveOutOpen_ok name = NotListed).
  { unfold open_device. apply nDeviceID_None in Hname. now rewrite Hname. }
  unfold Create_named in Hns, Hr. rewrite Hdev in Hns, Hr. rewrite Hdev.
  destruct (no_device_no_completion _ _ _ _ _ _ Hr) as (Hd & Hf & Hc & Hstep).
  pose proof (accounting_run _ _ _ _ _ _ _ HN Hns Hr) as (_ & _ & Hsum & H0 & _).
  unfold outstanding in Hsum. rewrite Hc in Hsum. simpl in Hsum.
  repeat split; try assumption; lia.
Qed.

End Unlisted.

Section UnlistedWitness.
Import NoiseMaker Invariants Devices.

Lemma unlisted_two_blocks_state :
  match run Inputs.two_blocks
          (@Create_named unit [Some "Speakers"%string] (fun _ => true)
             "Headphones"%string 44100 1 2 2) with
  | Some s => generated s = [0%Z; 1%Z]
  | None => False
  end.
Proof. exact (@eq_refl (list Z) [0%Z; 1%Z]). Qed.

Lemma unlisted_device_fills_pool_once_witness :
  exists s,
    run Inputs.two_blocks
      (@Create_named unit [Some "Speakers"%string] (fun _ => true)
         "Headphones"%string 44100 1 2 2) = Some s /\
    generated s = [0%Z; 1%Z] /\ m_nBlockFree (nm s) = (2 - 2)%Z.
Proof.
  pose proof unlisted_two_blocks_state as Hst.
  destruct (run Inputs.two_blocks
              (@Create_named unit [Some "Speakers"%string] (fun _ => true)
                 "Headphones"%string 44100 1 2 2)) as [s|] eqn:E; [| destruct Hst].
  exists s. split; [reflexivity |]. split; [exact Hst |].
  assert (Hname : Some "Headphones"%string ∉ [Some "Speakers"%string]).
  { intros Hin. apply list_elem_of_singleton in Hin. discriminate. }
  destruct (unlisted_device_fills_pool_once [Some "Speakers"%string] (fun _ => true)
              "Headphones"%string 44100 1 2 2 Inputs.two_blocks s Hname
              (conj (@eq_refl comparison Lt) (@eq_refl comparison Lt))
              (@eq_refl bool true) E) as (_ & _ & _ & _ & _ & Hfree).
  rewrite Hst in Hfree. exact Hfree.
Defined.

End UnlistedWitness.

Section InitializeFacts.
Import NoiseMaker Invariants Devices.

(** X20: [AudioManager::Initialize] fails only when no device answers.
    Otherwise it asks [waveOutOpen] for device 0, whichever device was
    the first to answer, and reports success also when that fails: the
    engine is then without thread, and no run of it generates a block. *)
Theorem Initialize_opens_device_0 caps waveOutOpen_ok :
  (Initialize caps waveOutOpen_ok = None <-> Forall (fun c => c = None) caps) /\
  (forall s, Initialize caps waveOutOpen_ok = Some s ->
     s = Create (if waveOutOpen_ok 0 then Opened else OpenFailed) 44100 1 8 512 /\
     (waveOutOpen_ok 0 = false ->
        forall evs s', run evs s = Some s' -> pc s' = Exited /\ generated s' = [])).
Proof.
  unfold Initialize. split.
  - rewrite <- GetDevices_empty. destruct (GetDevices caps); split; congruence.
  - intros s Hs. destruct (GetDevices caps) as [| name rest] eqn:Hd; [discriminate |].
    injection Hs as <-.
    assert (Hopen : open_device caps waveOutOpen_ok name =
                    if waveOutOpen_ok 0 then Opened else OpenFailed).
    { unfold open_device, nDeviceID. rewrite Hd. simpl.
      destruct (decide (name = name)) as [_|Hne]; [reflexivity | contradiction]. }
    unfold Create_named. rewrite Hopen. split; [reflexivity |].
    intros Hfail evs s' Hr. rewrite Hfail in Hr.
    destruct (exited_stays evs (Create OpenFailed 44100 1 8 512) s' eq_refl Hr)
      as (Hp & Hg & _).
    split; [exact Hp | exact Hg].
Qed.

End InitializeFacts.

(* ------------------------------------------------------------------ *)
(** ** The registry under any interleaving *)

Section ScheduleFacts.
Import Registry Invariants Schedule.

Lemma handle_all_app hs1 hs2 am :
  handle_all (hs1 ++ hs2) am = handle_all hs2 (handle_all hs1 am).
Proof. unfold handle_all. apply foldl_app. Qed.

Lemma msgs_cons e evs : msgs (e :: evs) = msgs [e] ++ msgs evs.
Proof. unfold msgs. destruct e; reflexivity. Qed.

Lemma pending_step e w w' :
  step e w = Some w' ->
  handle_all (pending w') (inst w') = handle_all (pending w ++ msgs [e]) (inst w).
Proof.
  intros H. destruct e as [t | h | [|]]; simpl in H.
  - destruct (audio w); try discriminate. injection H as <-.
    unfold pending, msgs. simpl. now rewrite app_nil_r.
  - destruct (input w) eqn:Hi; try discriminate. injection H as <-.
    unfold pending, msgs. simpl. now rewrite Hi.
  - unfold audio_step in H.
    assert (Hsame : inst w' = inst w /\ input w' = input w).
    { destruct (audio w); try discriminate.
      - injection H as <-. split; reflexivity.
      - destruct (m_notesMutex w); try discriminate. injection H as <-.
        split; reflexivity.
      - destruct (map_to_list (m_activeNotes (inst w)) !! pos);
          injection H as <-; split; reflexivity. }
    destruct Hsame as [Ha Hb]. unfold pending, msgs. simpl.
    now rewrite Ha, Hb, app_nil_r.
  - unfold input_step in H. destruct (input w) eqn:Hi; try discriminate.
    + destruct (m_notesMutex w); try discriminate. injection H as <-.
      unfold pending, msgs. simpl. now rewrite Hi.
    + injection H as <-. unfold pending, msgs. simpl. now rewrite Hi.
Qed.

Lemma pending_run evs w w' :
  run evs w = Some w' ->
  handle_all (pending w') (inst w') = handle_all (pending w ++ msgs evs) (inst w).
Proof.
  revert w. induction evs as [| e evs IH]; intros w Hr; simpl in Hr.
  - injection Hr as <-. unfold msgs. simpl. now rewrite app_nil_r.
  - destruct (step e w) as [w1|] eqn:He; [| discriminate].
    rewrite (IH w1 Hr), handle_all_app, (pending_step e w w1 He).
    now rewrite <- handle_all_app, <- app_assoc, <- msgs_cons.
Qed.

(** X21: however the audio thread and the window procedure interleave,
    the handlers act on the registry one after the other in the order in
    which their messages arrived.  At rest the registry is the result of
    all of them; while one is on its way, of all but the last. *)
Theorem handlers_take_effect_in_message_order am evs w :
  run evs (boot am) = Some w ->
  handle_all (pending w) (inst w) = handle_all (msgs evs) am /\
  (input w = I_idle -> inst w = handle_all (msgs evs) am) /\
  (forall h, input w = I_lock h \/ input w = I_body h ->
     exists hs, msgs evs = hs ++ [h] /\ inst w = handle_all hs am).
Proof.
  intros Hr. pose proof (pending_run evs (boot am) w Hr) as H. simpl in H.
  split; [exact H |]. split.
  - intros Hi. unfold pending in H. now rewrite Hi in H.
  - intros h Hi.
    assert (Hp : pending w = [h]).
    { unfold pending. destruct Hi as [-> | ->]; reflexivity. }
    clear H Hi. revert w Hr Hp.
    induction evs as [| e evs IH] using rev_ind; intros w Hr Hp.
    + injection Hr as <-. discriminate.
    + assert (Hsplit : exists w1, run evs (boot am) = Some w1 /\ step e w1 = Some w).
      { clear IH Hp. revert Hr. generalize (boot am). induction evs as [| e0 evs IH];
          intros w0 Hr; simpl in *.
        - destruct (step e w0) as [w1|] eqn:He; [| discriminate].
          injection Hr as <-. now exists w0.
        - destruct (step e0 w0) as [w1|]; [| discriminate]. now apply IH. }
      destruct Hsplit as (w1 & Hr1 & He).
      unfold msgs. rewrite omap_app. fold (msgs evs). fold (msgs [e]).
      destruct e as [t | h' | [|]]; simpl in He.
      * destruct (audio w1); try discriminate. injection He as <-.
        destruct (IH w1 Hr1 Hp) as (hs & -> & Hin). exists hs.
        unfold msgs at 1. simpl. now rewrite app_nil_r.
      * destruct (input w1) eqn:Hi1; try discriminate. injection He as <-.
        unfold pending in Hp. simpl in Hp. injection Hp as ->.
        exists (msgs evs). split; [reflexivity |]. simpl.
        pose proof (pending_run evs (boot am) w1 Hr1) as H1. simpl in H1.
        unfold pending in H1. now rewrite Hi1 in H1.
      * unfold audio_step in He.
        assert (Hsame : inst w = inst w1 /\ input w = input w1).
        { destruct (audio w1); try discriminate.
          - injection He as <-. split; reflexivity.
          - destruct (m_notesMutex w1); try discriminate. injection He as <-.
            split; reflexivity.
          - destruct (map_to_list (m_activeNotes (inst w1)) !! pos);
              injection He as <-; split; reflexivity. }
        destruct Hsame as [Ha Hb].
        assert (Hp1 : pending w1 = [h]) by (unfold pending in *; now rewrite <- Hb).
        destruct (IH w1 Hr1 Hp1) as (hs & -> & Hin). exists hs.
        unfold msgs at 1. simpl. rewrite app_nil_r. split; congruence.
      * unfold input_step in He.
        destruct (input w1) as [| h1 | h1] eqn:Hi1; try discriminate.
        -- destruct (m_notesMutex w1); try discriminate. injection He as <-.
           assert (Hp1 : pending w1 = [h]).
           { unfold pending in *. simpl in Hp. now rewrite Hi1. }
           destruct (IH w1 Hr1 Hp1) as (hs & -> & Hin). exists hs.
           unfold msgs at 1. simpl. rewrite app_nil_r. split; [reflexivity | exact Hin].
        -- injection He as <-. discriminate.
Qed.

Lemma registry_run_cons e evs w w1 :
  step e w = Some w1 -> run (e :: evs) w = run evs w1.
Proof. intros H. simpl. now rewrite H. Qed.

Lemma iter_returns k : forall w type dTime pos dOutput,
  audio w = A_iter type dTime pos dOutput ->
  length (map_to_list (m_activeNotes (inst w))) - pos = k ->
  exists w',
    run (replicate (S k) (Run Audio)) w = Some w' /\ audio w' = A_idle /\
    inst w' = inst w /\ input w' = input w /\
    length (returned w') = S (length (returned w)).
Proof.
  induction k as [| k IH]; intros w ty t pos acc Ha Hk.
  - simpl. unfold audio_step. rewrite Ha.
    rewrite (proj2 (lookup_ge_None _ _)) by lia.
    eexists. split; [reflexivity |]. simpl. rewrite length_app. simpl.
    repeat split. lia.
  - assert (Hlt : pos < length (map_to_list (m_activeNotes (inst w)))) by lia.
    destruct (lookup_lt_is_Some_2 _ _ Hlt) as [key Hkey].
    change (replicate (S (S k)) (Run Audio))
      with (Run Audio :: replicate (S k) (Run Audio)).
    cbn [run step]. unfold audio_step at 1. rewrite Ha, Hkey.
    match goal with |- context [run _ ?w1] =>
      destruct (IH w1 ty t (S pos) (acc + oscillator ty key.2 t)%R eq_refl)
        as (w' & Hr & Hi & Hin & Hinp & Hret)
    end.
    + simpl. lia.
    + exists w'. split; [exact Hr |]. repeat split; assumption.
Qed.

(** X22: the callback cannot be held up for good.  From every state of
    every run in which the callback has been entered, the two threads
    alone can take steps, at most four and one for each active note,
    after which the callback has returned its value: the only wait is
    for one handler body. *)
Theorem callback_always_returns am evs w :
  run evs (boot am) = Some w ->
  audio w <> A_idle ->
  exists sched w',
    Forall (fun e => exists th, e = Run th) sched /\
    run sched w = Some w' /\
    audio w' = A_idle /\
    length (returned w') = S (length (returned w)) /\
    length sched <= 4 + size (m_activeNotes (inst w')).
Proof.
  intros Hr Ha.
  destruct (mutex_discipline_run am evs w Hr) as (Hm & Hx & _).
  assert (Hfree : forall w0, audio w0 <> A_idle ->
            m_notesMutex w0 = (if iterating (audio w0) then Some Audio else None) ->
            exists w',
              run (replicate (audio_fuel w0) (Run Audio)) w0 = Some w' /\
              audio w' = A_idle /\ inst w' = inst w0 /\
              length (returned w') = S (length (returned w0)) /\
              audio_fuel w0 <= 3 + size (m_activeNotes (inst w0))).
  { clear. intros w0 Ha Hm. unfold audio_fuel.
    rewrite <- (length_map_to_list (m_activeNotes (inst w0))).
    destruct (audio w0) as [| t | ty t | ty t pos acc] eqn:Haud; [contradiction | | |].
    - simpl in Hm.
      set (w1 := mkWorld (inst w0) (m_notesMutex w0)
                   (A_lock (m_currentWaveType (inst w0)) t) (input w0) (returned w0)).
      set (w2 := mkWorld (inst w0) (Some Audio)
                   (A_iter (m_currentWaveType (inst w0)) t 0 0.0%R)
                   (input w0) (returned w0)).
      assert (H1 : step (Run Audio) w0 = Some w1).
      { simpl. unfold audio_step. now rewrite Haud. }
      assert (H2 : step (Run Audio) w1 = Some w2).
      { simpl. unfold audio_step. simpl. now rewrite Hm. }
      destruct (iter_returns (length (map_to_list (m_activeNotes (inst w0)))) w2
                  (m_currentWaveType (inst w0)) t 0 0.0%R eq_refl)
        as (w' & Hr & Hi & Hin & _ & Hret); [simpl; lia |].
      exists w'. split.
      { change (3 + ?n) with (S (S (S n))).
        change (replicate (S (S (S ?n))) ?e) with (e :: e :: replicate (S n) e).
        now rewrite (registry_run_cons _ _ _ _ H1), (registry_run_cons _ _ _ _ H2). }
      simpl in Hin, Hret. repeat split; try assumption. lia.
    - simpl in Hm.
      set (w2 := mkWorld (inst w0) (Some Audio) (A_iter ty t 0 0.0%R)
                   (input w0) (returned w0)).
      assert (H2 : step (Run Audio) w0 = Some w2).
      { simpl. unfold audio_step. now rewrite Haud, Hm. }
      destruct (iter_returns (length (map_to_list (m_activeNotes (inst w0)))) w2
                  ty t 0 0.0%R eq_refl)
        as (w' & Hr & Hi & Hin & _ & Hret); [simpl; lia |].
      exists w'. split.
      { change (2 + ?n) with (S (S n)).
        change (replicate (S (S ?n)) ?e) with (e :: replicate (S n) e).
        now rewrite (registry_run_cons _ _ _ _ H2). }
      simpl in Hin, Hret. repeat split; try assumption. lia.
    - destruct (iter_returns (length (map_to_list (m_activeNotes (inst w0))) - pos)
                  w0 ty t pos acc Haud eq_refl) as (w' & Hr & Hi & Hin & _ & Hret).
      exists w'. split; [exact Hr |]. repeat split; try assumption. lia. }
  unfold holder in Hm.
  destruct (input w) as [| h | h] eqn:Hi.
  - simpl in Hm. destruct (Hfree w Ha) as (w' & Hr' & Hid & Hin & Hret & Hlen).
    { destruct (iterating (audio w)); exact Hm. }
    exists (replicate (audio_fuel w) (Run Audio)), w'.
    split; [apply Forall_replicate; now exists Audio |].
    split; [exact Hr' |]. split; [exact Hid |]. split; [exact Hret |].
    rewrite length_replicate, Hin. lia.
  - simpl in Hm. destruct (Hfree w Ha) as (w' & Hr' & Hid & Hin & Hret & Hlen).
    { destruct (iterating (audio w)); exact Hm. }
    exists (replicate (audio_fuel w) (Run Audio)), w'.
    split; [apply Forall_replicate; now exists Audio |].
    split; [exact Hr' |]. split; [exact Hid |]. split; [exact Hret |].
    rewrite length_replicate, Hin. lia.
  - simpl in Hx. rewrite andb_true_r in Hx. rewrite Hx in Hm. simpl in Hm.
    set (w1 := mkWorld (handler_body h (inst w)) None (audio w) I_idle (returned w)).
    destruct (Hfree w1) as (w' & Hr' & Hid & Hin & Hret & Hlen).
    { exact Ha. }
    { simpl. now rewrite Hx. }
    exists (Run Input :: replicate (audio_fuel w1) (Run Audio)), w'.
    split.
    { constructor; [now exists Input | apply Forall_replicate; now exists Audio]. }
    split.
    { cbn [run step]. unfold input_step. rewrite Hi. exact Hr'. }
    split; [exact Hid |]. split; [exact Hret |].
    simpl. rewrite length_replicate, Hin. lia.
Qed.

End ScheduleFacts.

Section ScheduleWitness.
Import Registry Schedule.

Lemma key_then_call_state :
  match run Inputs3.key_then_call (boot AudioManager_new) with
  | Some w => input w = I_idle /\ audio w = A_entered 0%R
  | None => False
  end.
Proof.
  exact (conj (@eq_refl input_pc I_idle) (@eq_refl audio_pc (A_entered 0%R))).
Qed.

Lemma handlers_take_effect_in_message_order_witness :
  exists w,
    run Inputs3.key_then_call (boot AudioManager_new) = Some w /\
    inst w = HandleKeyDown VirtualKeys.Q AudioManager_new.
Proof.
  pose proof key_then_call_state as Hst.
  destruct (run Inputs3.key_then_call (boot AudioManager_new)) as [w|] eqn:E;
    [| destruct Hst].
  exists w. split; [reflexivity |].
  exact (proj1 (proj2 (handlers_take_effect_in_message_order AudioManager_new
                         Inputs3.key_then_call w E)) (proj1 Hst)).
Defined.

Lemma callback_always_returns_witness :
  exists w sched w',
    run Inputs3.key_then_call (boot AudioManager_new) = Some w /\
    run sched w = Some w' /\ audio w' = A_idle.
Proof.
  pose proof key_then_call_state as Hst.
  destruct (run Inputs3.key_then_call (boot AudioManager_new)) as [w|] eqn:E;
    [| destruct Hst].
  assert (Ha : audio w <> A_idle).
  { rewrite (proj2 Hst). discriminate. }
  destruct (callback_always_returns AudioManager_new Inputs3.key_then_call w E Ha)
    as (sched & w' & _ & Hr & Hid & _).
  exists w, sched, w'. repeat split; assumption.
Defined.

End ScheduleWitness.

(* ------------------------------------------------------------------ *)
(** ** [s_instance] *)

Section InstanceFacts.
Import Instances.


Lemma StaticNoiseCallback_null dTime : StaticNoiseCallback None dTime = 0%R.
Proof. unfold StaticNoiseCallback. lra. Qed.


Lemma one_manager_state :
  match run Inputs3.one_manager empty with
  | Some h => s_instance h = Some 1%N
  | None => False
  end.
Proof. exact (@eq_refl (option N) (Some 1%N)). Qed.


(** Handlers leave [s_instance] alone. *)
Lemma Handle_keeps_s_instance os h h' :
  Forall (fun o => exists this hd, o = Handle this hd) os ->
  run os h = Some h' -> s_instance h' = s_instance h.
Proof.
  revert h. induction os as [| o os IH]; intros h Hall Hr; simpl in Hr.
  - now injection Hr as <-.
  - inversion Hall as [| ? ? (this & hd & ->) Hall']; subst. simpl in Hr.
    destruct (objects h !! this); [| discriminate].
    rewrite (IH _ Hall' Hr). reflexivity.
Qed.

(** X24: a second [AudioManager] silences the first.  Constructing an
    object in fresh storage and destroying it again leaves every other
    object as it was and [s_instance] null; from then on the callback
    returns 0, whatever keys the handlers of the surviving objects put
    into their registries. *)
Theorem second_instance_silences_first h q :
  objects h !! q = None ->
  exists h',
    run [New q; Delete q] h = Some h' /\
    objects h' = objects h /\
    s_instance h' = None /\
    forall os h'',
      Forall (fun o => exists this hd, o = Handle this hd) os ->
      run os h' = Some h'' ->
      forall dTime, callback h'' dTime = Some 0%R.
Proof.
  intros Hq. exists (mkHeap (objects h) None).
  split; [| split; [reflexivity | split; [reflexivity |]]].
  - simpl. rewrite Hq. cbn [ctor objects]. rewrite lookup_insert_eq.
    unfold dtor, ctor. cbn [objects s_instance].
    destruct (decide (Some q = Some q)) as [_|Hne]; [| contradiction].
    now rewrite delete_insert_id.
  - intros os h'' Hall Hr t.
    pose proof (Handle_keeps_s_instance os _ h'' Hall Hr) as Hs. simpl in Hs.
    unfold callback. rewrite Hs. now rewrite StaticNoiseCallback_null.
Qed.

Lemma second_instance_silences_first_witness :
  exists h h',
    run Inputs3.one_manager empty = Some h /\
    run [New 2%N; Delete 2%N] h = Some h' /\ s_instance h' = None.
Proof.
  pose proof one_manager_state as Hst.
  destruct (run Inputs3.one_manager empty) as [h|] eqn:E; [| destruct Hst].
  assert (Hq : objects h !! 2%N = None).
  { destruct (objects h !! 2%N) as [a|] eqn:Ha; [| reflexivity].
    exfalso. revert Ha. generalize E. unfold Inputs3.one_manager. simpl.
    rewrite lookup_empty. unfold ctor. cbn [objects s_instance].
    rewrite lookup_insert_eq. intros [= <-]. cbn [objects].
    rewrite lookup_insert_ne by discriminate.
    rewrite lookup_insert_ne by discriminate.
    rewrite lookup_empty. discriminate. }
  destruct (second_instance_silences_first h 2%N Hq) as (h' & Hr & _ & Hs & _).
  exists h, h'. repeat split; assumption.
Defined.

End InstanceFacts.

(* ------------------------------------------------------------------ *)
(** ** The window procedure *)

Section WndProcFacts.
Import D3DManager App.

Lemma dispatch_audio g m :
  dispatch g m ≫= m_audioManager =
  (g ≫= m_audioManager) ≫=
    (fun am => Some (handle_all (option_list (handler_of m)) am)).
Proof.
  unfold dispatch, WndProc, handler_of.
  destruct (imgui m).
  { simpl. destruct g as [a|]; simpl; [| reflexivity].
    destruct (m_audioManager a); reflexivity. }
  assert (Hk : forall am,
            key_handler (msg m) (wParam m) am =
            handle_all
              (option_list
                 (if (msg m =? WM_KEYDOWN)%Z then Some (Registry.KeyDown (wParam m))
                  else if (msg m =? WM_KEYUP)%Z then Some (Registry.KeyUp (wParam m))
                  else None)) am).
  { intros am. unfold key_handler.
    destruct (msg m =? WM_KEYDOWN)%Z; [reflexivity |].
    destruct (msg m =? WM_KEYUP)%Z; reflexivity. }
  destruct g as [a|]; simpl.
  - destruct (m_d3dManager a) as [d|]; simpl.
    + destruct (msg m =? WM_SIZE)%Z.
      * destruct (wParam m =? SIZE_MINIMIZED)%Z; simpl;
          destruct (m_audioManager a); simpl; now rewrite ?Hk.
      * destruct (msg m =? WM_SYSCOMMAND)%Z;
          [destruct (Z.land (wParam m) 65520 =? SC_KEYMENU)%Z |
           destruct (msg m =? WM_DESTROY)%Z];
          simpl; destruct (m_audioManager a); simpl; now rewrite ?Hk.
    + destruct (msg m =? WM_SYSCOMMAND)%Z;
        [destruct (Z.land (wParam m) 65520 =? SC_KEYMENU)%Z |
         destruct (msg m =? WM_DESTROY)%Z];
        simpl; destruct (m_audioManager a); simpl; now rewrite ?Hk.
  - destruct (msg m =? WM_SYSCOMMAND)%Z;
      [destruct (Z.land (wParam m) 65520 =? SC_KEYMENU)%Z |
       destruct (msg m =? WM_DESTROY)%Z]; reflexivity.
Qed.

Lemma dispatch_all_audio ms : forall g,
  dispatch_all ms g ≫= m_audioManager =
  (g ≫= m_audioManager) ≫=
    (fun am => Some (handle_all (omap handler_of ms) am)).
Proof.
  induction ms as [| m ms IH]; intros g.
  - simpl. destruct (g ≫= m_audioManager); reflexivity.
  - change (dispatch_all (m :: ms) g) with (dispatch_all ms (dispatch g m)).
    rewrite IH, dispatch_audio.
    destruct (g ≫= m_audioManager) as [am|]; simpl; [| reflexivity].
    f_equal. destruct (handler_of m); reflexivity.
Qed.

Lemma handler_of_keeps_type m h am :
  handler_of m = Some h ->
  m_currentWaveType (Registry.handler_body h am) = m_currentWaveType am.
Proof.
  unfold handler_of. destruct (imgui m); [discriminate |].
  destruct (msg m =? WM_KEYDOWN)%Z.
  { intros [= <-]. apply HandleKeyDown_type. }
  destruct (msg m =? WM_KEYUP)%Z; [| discriminate].
  intros [= <-]. reflexivity.
Qed.

(** X25: what window messages do to the registry.  Any sequence of
    messages acts on the [AudioManager] as the key handlers of its
    key-down and key-up messages that ImGui did not take, in order;
    every other message leaves it alone.  Messages never
    change the wave type, and a registry that holds only keys of the table
    keeps at most 17 notes. *)
Theorem window_messages_act_as_handlers ms a am :
  m_audioManager a = Some am ->
  exists a',
    dispatch_all ms (Some a) = Some a' /\
    m_audioManager a' = Some (handle_all (omap handler_of ms) am) /\
    (forall am', m_audioManager a' = Some am' ->
       m_currentWaveType am' = m_currentWaveType am /\
       (table_consistent am ->
          table_consistent am' /\ (size (m_activeNotes am') <= 17)%nat)).
Proof.
  intros Ha.
  assert (Hsome : forall ms g, is_Some g -> is_Some (dispatch_all ms g)).
  { clear. induction ms as [| m ms IH]; intros g Hg; [exact Hg |].
    change (dispatch_all (m :: ms) g) with (dispatch_all ms (dispatch g m)).
    apply IH. destruct Hg as [a ->]. unfold dispatch, WndProc.
    destruct (imgui m); [now eexists |]. simpl.
    destruct (m_d3dManager a);
      [destruct (msg m =? WM_SIZE)%Z; [destruct (wParam m =? SIZE_MINIMIZED)%Z |] |];
      try (now eexists);
      (destruct (msg m =? WM_SYSCOMMAND)%Z;
        [destruct (Z.land (wParam m) 65520 =? SC_KEYMENU)%Z |
         destruct (msg m =? WM_DESTROY)%Z]; now eexists). }
  destruct (Hsome ms (Some a)) as [a' Ha']; [now eexists |].
  exists a'. split; [exact Ha' |].
  pose proof (dispatch_all_audio ms (Some a)) as H. rewrite Ha' in H.
  simpl in H. rewrite Ha in H. simpl in H.
  split; [exact H |].
  intros am' Ham'. rewrite H in Ham'. injection Ham' as <-.
  split.
  - clear. revert am. induction ms as [| m ms IH]; intros am; [reflexivity |].
    simpl. destruct (handler_of m) as [h|] eqn:Hh; [| apply IH].
    simpl. rewrite IH. exact (handler_of_keeps_type m h am Hh).
  - intros Ht. pose proof (table_consistent_handle_all (omap handler_of ms) am Ht) as Ht'.
    split; [exact Ht' | now apply table_consistent_size].
Qed.

Lemma window_messages_act_as_handlers_witness :
  exists a',
    dispatch_all [mkMessage false WM_KEYDOWN VirtualKeys.Q 0; mkMessage false WM_SIZE 0 0]
      (Some (mkApp (Some D3DManager.new) (Some AudioManager_new))) = Some a' /\
    m_audioManager a' = Some (HandleKeyDown VirtualKeys.Q AudioManager_new).
Proof.
  destruct (window_messages_act_as_handlers
              [mkMessage false WM_KEYDOWN VirtualKeys.Q 0; mkMessage false WM_SIZE 0 0]
              (mkApp (Some D3DManager.new) (Some AudioManager_new))
              AudioManager_new eq_refl) as (a' & Hr & Ha & _).
  exists a'. split; [exact Hr | exact Ha].
Defined.

Lemma LOWORD_range l : (0 <= LOWORD l < 65536)%Z.
Proof.
  unfold LOWORD. change 65535%Z with (Z.ones 16). rewrite Z.land_ones by lia.
  apply Z.mod_pos_bound. lia.
Qed.

Lemma HIWORD_range l : (0 <= HIWORD l < 65536)%Z.
Proof.
  unfold HIWORD. change 65535%Z with (Z.ones 16). rewrite Z.land_ones by lia.
  apply Z.mod_pos_bound. lia.
Qed.

Lemma LOWORD_pack w h : (0 <= w < 65536)%Z -> LOWORD (w + 65536 * h) = w.
Proof.
  intros Hw. unfold LOWORD. change 65535%Z with (Z.ones 16).
  rewrite Z.land_ones by lia. change (2 ^ 16)%Z with 65536%Z.
  replace (w + 65536 * h)%Z with (w + h * 65536)%Z by lia.
  rewrite Z_mod_plus_full. apply Z.mod_small. lia.
Qed.

Lemma HIWORD_pack w h :
  (0 <= w < 65536)%Z -> (0 <= h < 65536)%Z -> HIWORD (w + 65536 * h) = h.
Proof.
  intros Hw Hh. unfold HIWORD. change 65535%Z with (Z.ones 16).
  rewrite Z.land_ones, Z.shiftr_div_pow2 by lia. change (2 ^ 16)%Z with 65536%Z.
  replace (w + 65536 * h)%Z with (w + h * 65536)%Z by lia.
  rewrite Z_div_plus_full by lia.
  rewrite (Z.div_small w) by lia. rewrite Z.add_0_l. apply Z.mod_small. lia.
Qed.

(** X26: a resize reaches the back buffer.  A [WM_SIZE] that is not a
    minimize stores the two 16-bit halves of [lParam], returns 0 without
    [DefWindowProcW] and leaves the registry alone.  On a device that is
    not lost, the next frame sets the back buffer to that size, resets the
    device once with it and clears the request, when both halves are
    positive; when one is 0 it does nothing of this, and the request stays
    as stored. *)
Theorem resize_reaches_back_buffer d am width height wp i :
  (0 <= width < 65536)%Z ->
  (0 <= height < 65536)%Z ->
  wp <> SIZE_MINIMIZED ->
  m_DeviceLost d = false ->
  let r := WndProc false (Some (mkApp (Some d) (Some am))) WM_SIZE wp
             (width + 65536 * height) in
  result r = Returned 0 /\ PostQuitMessage r = false /\
  exists a1 a2 d2,
    instance r = Some a1 /\ m_audioManager a1 = Some am /\
    frame i a1 = Some a2 /\ m_d3dManager a2 = Some d2 /\
    if (0 <? width)%Z && (0 <? height)%Z then
      BackBufferWidth d2 = width /\ BackBufferHeight d2 = height /\
      m_ResizeWidth d2 = 0%Z /\ m_ResizeHeight d2 = 0%Z /\
      Reset_calls d2 = Reset_calls d ++ [(width, height)]
    else
      BackBufferWidth d2 = BackBufferWidth d /\
      BackBufferHeight d2 = BackBufferHeight d /\
      m_ResizeWidth d2 = width /\ m_ResizeHeight d2 = height /\
      Reset_calls d2 = Reset_calls d.
Proof.
  intros Hw Hh Hwp Hlost r.
  assert (Hr : r = mkReply (Some (mkApp (Some (SetResizeFlags width height d)) (Some am)))
                     (Returned 0) false).
  { subst r. unfold WndProc. cbn [m_d3dManager m_audioManager fmap option_fmap option_map].
    unfold key_handler. change (WM_SIZE =? WM_KEYDOWN)%Z with false.
    change (WM_SIZE =? WM_KEYUP)%Z with false.
    change (WM_SIZE =? WM_SIZE)%Z with true. cbv iota.
    destruct (wp =? SIZE_MINIMIZED)%Z eqn:E; [apply Z.eqb_eq in E; contradiction |].
    now rewrite LOWORD_pack, HIWORD_pack by assumption. }
  rewrite Hr. cbn [result PostQuitMessage instance].
  split; [reflexivity |]. split; [reflexivity |].
  eexists. unfold frame. cbn [m_d3dManager m_audioManager].
  unfold SetResizeFlags at 1. cbn [m_DeviceLost]. rewrite Hlost.
  cbn [m_ResizeWidth m_ResizeHeight SetResizeFlags].
  eexists. eexists. split; [reflexivity |]. split; [reflexivity |].
  split; [reflexivity |]. cbn [m_d3dManager]. split; [reflexivity |].
  destruct (0 <? width)%Z eqn:Ew; destruct (0 <? height)%Z eqn:Eh;
    try apply Z.ltb_lt in Ew; try apply Z.ltb_lt in Eh;
    try apply Z.ltb_ge in Ew; try apply Z.ltb_ge in Eh;
    cbn [andb m_ResizeWidth m_ResizeHeight].
  - assert (E1 : (width =? 0)%Z = false) by (apply Z.eqb_neq; lia).
    assert (E2 : (height =? 0)%Z = false) by (apply Z.eqb_neq; lia).
    rewrite E1, E2. cbn [negb andb].
    destruct (Present i); simpl; repeat split.
  - assert (E2 : (height =? 0)%Z = true) by (apply Z.eqb_eq; lia).
    rewrite E2, andb_false_r. destruct (Present i); simpl; repeat split.
  - assert (E1 : (width =? 0)%Z = true) by (apply Z.eqb_eq; lia).
    rewrite E1. cbn [negb andb]. destruct (Present i); simpl; repeat split.
  - assert (E1 : (width =? 0)%Z = true) by (apply Z.eqb_eq; lia).
    rewrite E1. cbn [negb andb]. destruct (Present i); simpl; repeat split.
Qed.

End WndProcFacts.

Section FrameFacts.
Import D3DManager App.

Lemma resize_reaches_back_buffer_witness :
  result (WndProc false (Some (mkApp (Some D3DManager.new) (Some AudioManager_new)))
            WM_SIZE 0 (1280 + 65536 * 800)) = Returned 0.
Proof.
  refine (proj1 (resize_reaches_back_buffer D3DManager.new AudioManager_new 1280 800 0
                   (mkFrameInput D3D_other true false false D3D_other) _ _ _ eq_refl)).
  - lia.
  - lia.
  - unfold SIZE_MINIMIZED. lia.
Defined.

Lemma lost_frame j d am :
  m_DeviceLost d = true ->
  TestCooperativeLevel j = D3DERR_DEVICELOST ->
  frame j (mkApp (Some d) (Some am)) = Some (mkApp (Some d) (Some am)).
Proof. intros Hl Hj. unfold frame. simpl. now rewrite Hl, Hj. Qed.

Lemma lost_frames js d am a' rest :
  m_DeviceLost d = true ->
  Forall (fun j => TestCooperativeLevel j = D3DERR_DEVICELOST) js ->
  frames rest (mkApp (Some d) (Some am)) = a' ->
  frames (js ++ rest) (mkApp (Some d) (Some am)) = a'.
Proof.
  intros Hl Hall Hrest. induction Hall as [| j js Hj _ IH]; [exact Hrest |].
  simpl. now rewrite (lost_frame j d am Hl Hj).
Qed.

(** X27: while the device is lost a frame does nothing: clicks on the
    buttons are dropped and a pending resize is kept.  In the first frame
    in which the device is back the pending resize is applied and
    cleared; when the device was reported as not reset it is reset twice
    in that frame, first with the old size and then with the new one. *)
Theorem resize_waits_for_lost_device d am lost i :
  m_DeviceLost d = true ->
  m_ResizeWidth d <> 0%Z ->
  m_ResizeHeight d <> 0%Z ->
  Forall (fun j => TestCooperativeLevel j = D3DERR_DEVICELOST) lost ->
  TestCooperativeLevel i <> D3DERR_DEVICELOST ->
  frames lost (mkApp (Some d) (Some am)) = Some (mkApp (Some d) (Some am)) /\
  exists d',
    frames (lost ++ [i]) (mkApp (Some d) (Some am)) =
      Some (mkApp (Some d') (Some (buttons i am))) /\
    BackBufferWidth d' = m_ResizeWidth d /\
    BackBufferHeight d' = m_ResizeHeight d /\
    m_ResizeWidth d' = 0%Z /\ m_ResizeHeight d' = 0%Z /\
    Reset_calls d' =
      Reset_calls d ++
      match TestCooperativeLevel i with
      | D3DERR_DEVICENOTRESET => [(BackBufferWidth d, BackBufferHeight d)]
      | _ => []
      end ++ [(m_ResizeWidth d, m_ResizeHeight d)] /\
    m_DeviceLost d' =
      match Present i with D3DERR_DEVICELOST => true | _ => false end.
Proof.
  intros Hl Hw Hh Hall Hi.
  split.
  { rewrite <- (app_nil_r lost). now apply lost_frames. }
  apply Z.eqb_neq in Hw, Hh.
  destruct (TestCooperativeLevel i) eqn:Ht; [contradiction | |].
  - eexists. split.
    + apply lost_frames; [exact Hl | exact Hall |].
      simpl. unfold frame. cbn [m_d3dManager m_audioManager]. rewrite Hl, Ht.
      cbn [ClearDeviceLostFlag SetDeviceLostFlag ResetDevice
           m_ResizeWidth m_ResizeHeight].
      rewrite Hw, Hh. cbn [negb andb]. reflexivity.
    + destruct (Present i); simpl; rewrite <- ?app_assoc; repeat split.
  - eexists. split.
    + apply lost_frames; [exact Hl | exact Hall |].
      simpl. unfold frame. cbn [m_d3dManager m_audioManager]. rewrite Hl, Ht.
      cbn [ClearDeviceLostFlag SetDeviceLostFlag ResetDevice
           m_ResizeWidth m_ResizeHeight].
      rewrite Hw, Hh. cbn [negb andb]. reflexivity.
    + destruct (Present i); simpl; rewrite <- ?app_assoc; repeat split.
Qed.

Lemma resize_waits_for_lost_device_witness :
  frames [mkFrameInput D3DERR_DEVICELOST true false true D3D_other]
    (mkApp (Some (mkD3DManager true 1280 800 640 480 [])) (Some AudioManager_new)) =
  Some (mkApp (Some (mkD3DManager true 1280 800 640 480 [])) (Some AudioManager_new)).
Proof.
  refine (proj1 (resize_waits_for_lost_device (mkD3DManager true 1280 800 640 480 [])
                   AudioManager_new
                   [mkFrameInput D3DERR_DEVICELOST true false true D3D_other]
                   (mkFrameInput D3DERR_DEVICENOTRESET true false false D3D_other)
                   eq_refl _ _ _ _)).
  - simpl. lia.
  - simpl. lia.
  - constructor; [reflexivity | constructor].
  - discriminate.
Defined.

End FrameFacts.

(* ------------------------------------------------------------------ *)
(** ** [App::Initialize] *)

Section StartupFacts.
Import Startup.



End StartupFacts.

(* ------------------------------------------------------------------ *)
(** ** From the key to the sample *)

Section KeyToSample.
Import NoiseMaker App.
Local Open Scope R_scope.

Lemma HandleKeyDown_first_note type k f :
  noteFreq_of k = Some f ->
  HandleKeyDown k (SetWaveType type AudioManager_new) = mkAudioManager {[ k := f ]} type.
Proof.
  intros Hf. unfold HandleKeyDown, MapNoteFrequency, SetWaveType, AudioManager_new.
  cbn [m_activeNotes m_currentWaveType]. rewrite lookup_empty, Hf.
  unfold set_activeNotes. cbn [m_activeNotes m_currentWaveType].
  now rewrite insert_empty.
Qed.

Lemma one_note_callback type k f t :
  StaticNoiseCallback (Some (mkAudioManager {[ k := f ]} type)) t =
  0.5 * oscillator type f t.
Proof.
  unfold StaticNoiseCallback, MakeSineNoise, MakeSquareNoise, accumulate.
  cbn [m_activeNotes m_currentWaveType]. rewrite map_to_list_singleton.
  destruct type; cbn [foldl snd oscillator]; lra.
Qed.

Lemma half_scale_sample (x : R) :
  Rabs x <= 1 ->
  to_T (clip (0.5 * x) 1.0 * dMaxSample) = Double.trunc (0.5 * x * IZR (2 ^ 31 - 1)) /\
  (- 2 ^ 30 < Double.trunc (0.5 * x * IZR (2 ^ 31 - 1)) < 2 ^ 30)%Z.
Proof.
  intros Hx. apply Rabs_le_between in Hx.
  assert (Hm : IZR (2 ^ 31 - 1) = 2147483647) by (apply f_equal; reflexivity).
  unfold dMaxSample. rewrite nMaxSample_value.
  rewrite clip_id by (replace 1.0 with 1 by lra; lra).
  assert (Hr : - (1073741823.5) <= 0.5 * x * IZR (2 ^ 31 - 1) <= 1073741823.5).
  { rewrite Hm. lra. }
  split.
  - apply to_T_in_range. rewrite Hm in *. lra.
  - destruct (trunc_bounds (0.5 * x * IZR (2 ^ 31 - 1))) as [Hp Hn].
    destruct (Rle_dec 0 (0.5 * x * IZR (2 ^ 31 - 1))) as [H0|H0].
    + specialize (Hp H0). split; apply lt_IZR.
      * replace (IZR (- 2 ^ 30)) with (-1073741824) by (apply f_equal; reflexivity). lra.
      * replace (IZR (2 ^ 30)) with 1073741824 by (apply f_equal; reflexivity). lra.
    + assert (H1 : 0.5 * x * IZR (2 ^ 31 - 1) <= 0) by lra.
      specialize (Hn H1). split; apply lt_IZR.
      * replace (IZR (- 2 ^ 30)) with (-1073741824) by (apply f_equal; reflexivity). lra.
      * replace (IZR (2 ^ 30)) with 1073741824 by (apply f_equal; reflexivity). lra.
Qed.

(** X29: one key, one tone at half scale.  With no note active, a
    key-down message for a mapped key makes the callback return half the
    oscillator of the selected wave at that key's frequency; the sample
    the engine then writes is that value times 2^31 - 1, truncated, never
    clipped and below 2^30 in magnitude.  The key-up message restores the
    [AudioManager], and the sample written is 0 again. *)
Theorem key_press_plays_one_tone
    (d : option D3DManager.D3DManager) (type : WaveType) (k lParamDown lParamUp : Z)
    (f : R) (nm : NoiseMaker (option AudioManager)) :
  noteFreq_of k = Some f ->
  m_userFunction nm = Some StaticNoiseCallback ->
  let am0 := SetWaveType type AudioManager_new in
  let t := m_dGlobalTime nm in
  exists a1 am1,
    dispatch (Some (mkApp d (Some am0))) (mkMessage false WM_KEYDOWN k lParamDown)
      = Some a1 /\
    m_audioManager a1 = Some am1 /\
    StaticNoiseCallback (Some am1) t = 0.5 * oscillator type f t /\
    nNewSample (Some am1) nm =
      Double.trunc (0.5 * oscillator type f t * IZR (2 ^ 31 - 1)) /\
    (- 2 ^ 30 < nNewSample (Some am1) nm < 2 ^ 30)%Z /\
    exists a2,
      dispatch (Some a1) (mkMessage false WM_KEYUP k lParamUp) = Some a2 /\
      m_audioManager a2 = Some am0 /\
      nNewSample (Some am0) nm = 0%Z.
Proof.
  intros Hf Hu am0 t.
  exists (mkApp d (Some (mkAudioManager {[ k := f ]} type))),
         (mkAudioManager {[ k := f ]} type).
  assert (Hs : nNewSample (Some (mkAudioManager {[ k := f ]} type)) nm =
               to_T (clip (0.5 * oscillator type f t) 1.0 * dMaxSample)).
  { unfold nNewSample. rewrite Hu. now rewrite one_note_callback. }
  destruct (half_scale_sample (oscillator type f t) (oscillator_bound type f t))
    as [Hq Hb].
  split.
  { unfold dispatch, WndProc, key_handler. cbn.
    subst am0. rewrite (HandleKeyDown_first_note type k f Hf).
    destruct d; reflexivity. }
  split; [reflexivity |].
  split; [apply one_note_callback |].
  split; [now rewrite Hs |].
  split; [now rewrite Hs, Hq |].
  exists (mkApp d (Some am0)).
  split.
  { unfold dispatch, WndProc, key_handler. cbn.
    assert (Hup : HandleKeyUp k (mkAudioManager {[ k := f ]} type) = am0).
    { unfold HandleKeyUp, set_activeNotes. cbn [m_activeNotes m_currentWaveType].
      now rewrite delete_singleton_eq. }
    rewrite Hup. destruct d; reflexivity. }
  split; [reflexivity |].
  unfold nNewSample. rewrite Hu.
  rewrite (sample_of_callback am0 []).
  - apply sample_silence.
  - unfold Spec.frequencies. subst am0. cbn [SetWaveType AudioManager_new m_activeNotes].
    now rewrite map_to_list_empty.
Qed.

Lemma key_press_plays_one_tone_witness :
  exists a1,
    dispatch (Some (mkApp None (Some (SetWaveType Sine AudioManager_new))))
      (mkMessage false WM_KEYDOWN VirtualKeys.Q 0) = Some a1 /\
    m_audioManager a1 = Some (mkAudioManager {[ VirtualKeys.Q := NoteFrequencies.C5 ]} Sine).
Proof.
  destruct (key_press_plays_one_tone None Sine VirtualKeys.Q 0 0 NoteFrequencies.C5
              Inputs.small_engine eq_refl eq_refl)
    as (a1 & am1 & Hd & Ha & _).
  exists a1. split; [exact Hd |].
  rewrite Ha. f_equal.
  assert (Hk : Some a1 = Some (mkApp None
                 (Some (HandleKeyDown VirtualKeys.Q (SetWaveType Sine AudioManager_new))))).
  { rewrite <- Hd. reflexivity. }
  injection Hk as ->. cbn [m_audioManager] in Ha. injection Ha as <-.
  now apply HandleKeyDown_first_note.
Defined.

End KeyToSample.
